(** * Sliding-window forecasting example: windowing, batching and the
      train/validate loop of [examples/forecasting/load_forecasting.py].

    The script is embedded shallowly.  Python lists are Rocq lists, Python
    integers are [Z], operations that can raise return a [result].  The
    recurrent network and the optimiser are opaque: they enter as section
    variables ([forward], [train_step]).  Real numbers are exact rationals
    ([Q], compared with [==]); rounding of 32-bit floats is outside the
    model. *)

From Stdlib Require Import List ZArith QArith Qabs Lia Bool.
From Stdlib Require String Ascii DecimalString DecimalZ DecimalPos.
Import ListNotations.
Open Scope Z_scope.

(** ** Python primitives used by the script *)

Module Py.

Inductive exn : Type :=
| ZeroDivisionError
| IndexError
| TypeError
| ValueError.

Inductive result (T : Type) : Type :=
| Ok (v : T)
| Raise (e : exn).
Arguments Ok {T} v.
Arguments Raise {T} e.

Definition bind {T U : Type} (c : result T) (k : T -> result U) : result U :=
  match c with
  | Ok v => k v
  | Raise e => Raise e
  end.

(** [len(l)] *)
Definition len {T : Type} (l : list T) : Z := Z.of_nat (length l).

(** [range(n)]: empty when [n <= 0]. *)
Definition range (n : Z) : list Z := map Z.of_nat (seq 0 (Z.to_nat n)).

(** A slice bound is counted from the end when negative and is then
    clipped to [0 .. len]. *)
Definition clip (n x : Z) : Z :=
  if x <? 0 then Z.max (x + n) 0 else Z.min x n.

(** [l[a:b]]: never raises. *)
Definition slice {T : Type} (l : list T) (a b : Z) : list T :=
  let lo := clip (len l) a in
  let hi := clip (len l) b in
  firstn (Z.to_nat (hi - lo)) (skipn (Z.to_nat lo) l).

(** [l[i]]: a negative index counts from the end; out of range raises. *)
Definition index {T : Type} (l : list T) (i : Z) : result T :=
  let j := if i <? 0 then i + len l else i in
  if j <? 0 then Raise IndexError
  else match nth_error l (Z.to_nat j) with
       | Some v => Ok v
       | None => Raise IndexError
       end.

(** [a % b] on integers: floor modulo, raising on a zero divisor. *)
Definition modulo (a b : Z) : result Z :=
  if b =? 0 then Raise ZeroDivisionError else Ok (a mod b).

End Py.

Import Py.

Notation "x <- c ;; k" := (bind c (fun x => k))
  (at level 61, c at next level, right associativity).
Notation "' pat <- c ;; k" := (bind c (fun x => match x with pat => k end))
  (at level 61, pat pattern, c at next level, right associativity).

(** Monadic map, left to right, stopping at the first exception. *)
Fixpoint mapM {T U : Type} (f : T -> result U) (l : list T) : result (list U) :=
  match l with
  | [] => Ok []
  | x :: l' => v <- f x ;; vs <- mapM f l' ;; Ok (v :: vs)
  end.

(** Monadic left fold, the shape of a [for] loop with accumulators. *)
Fixpoint foldM {S T : Type} (f : S -> T -> result S) (s : S) (l : list T)
  : result S :=
  match l with
  | [] => Ok s
  | x :: l' => s' <- f s x ;; foldM f s' l'
  end.

(** ** [create_dataset] (lines 76-90) *)

Section Windowing.

Context {A : Type}.

(** One iteration of the [for i in range(...)] loop: both lists grow by
    one window. *)
Definition create_dataset_body (df : list A) (lookback : Z)
    (acc : list (list A) * list (list A)) (i : Z)
  : list (list A) * list (list A) :=
  let '(X, y) := acc in
  let feature := slice df i (i + lookback) in
  let target := slice df (i + 1) (i + lookback + 1) in
  (X ++ [feature], y ++ [target]).

(** The function has no [raise] and uses only [len], [range], slicing and
    [append]; it returns the pair [(X, y)]. *)
Definition create_dataset (df : list A) (lookback : Z)
  : result (list (list A) * list (list A)) :=
  Ok (fold_left (create_dataset_body df lookback)
                (range (len df - lookback)) ([], [])).

End Windowing.

(** ** The dataset wrapper (lines 102-126) *)

Section Dataset.

Context {A : Type}.

(** [transform] and [target_transform] default to [None]. *)
Record UCIElectricityDataset : Type := mkDataset {
  features : list (list A);
  target : list (list A);
  transform : option (list A -> list A);
  target_transform : option (list A -> list A)
}.

(** [__len__] *)
Definition dataset_len (self : UCIElectricityDataset) : Z :=
  len (features self).

(** [t.unsqueeze(1)] on a 1-D tensor of length [L]: shape [[L, 1]]. *)
Definition unsqueeze1 (t : list A) : list (list A) :=
  map (fun x => [x]) t.

(** [if f: v = f(v)] for an optional callable. *)
Definition apply_transform (f : option (list A -> list A)) (v : list A)
  : list A :=
  match f with
  | Some g => g v
  | None => v
  end.

(** [__getitem__]: list indexing raises [IndexError] out of range;
    [torch.Tensor(...)] keeps the values. *)
Definition getitem (self : UCIElectricityDataset) (idx : Z)
  : result (list (list A) * list (list A)) :=
  f <- index (features self) idx ;;
  t <- index (target self) idx ;;
  let f := apply_transform (transform self) f in
  let t := apply_transform (target_transform self) t in
  Ok (unsqueeze1 f, unsqueeze1 t).

(** ** The batch source (lines 128-131) *)

(** Modelled from the spec: [torch.utils.data.DataLoader] is library code
    and is not under src/.  With [shuffle=False] the spec (sections 3 and
    8) has it walk the sample indices [0 .. M-1] in order, close a batch
    every [batch_size] indices and keep the short batch left at the end;
    a batch size that is not positive is rejected when the loader is
    built. *)
Record DataLoader : Type := mkLoader {
  dataset : UCIElectricityDataset;
  batch_size : Z
}.

(** Modelled from the spec: building the loader; a batch size that is not
    positive is a configuration error (section 7). *)
Definition new_DataLoader (ds : UCIElectricityDataset) (B : Z)
  : result DataLoader :=
  if B <=? 0 then Raise ValueError else Ok (mkLoader ds B).

(** Modelled from the spec: the index batches of one pass; [batch] holds
    the indices of the batch being filled. *)
Fixpoint batch_sampler (B : Z) (batch : list Z) (idxs : list Z)
  : list (list Z) :=
  match idxs with
  | [] => if 0 <? len batch then [batch] else []
  | i :: rest =>
      let batch := batch ++ [i] in
      if len batch =? B then batch :: batch_sampler B [] rest
      else batch_sampler B batch rest
  end.

(** Modelled from the spec: a batch is fetched by reading its samples in
    order through [getitem] and stacking histories and targets apart.
    Stacking expects samples of one shape, as the windows of one series
    are; ragged samples are not told apart here. *)
Definition fetch (ds : UCIElectricityDataset) (idxs : list Z)
  : result (list (list (list A)) * list (list (list A))) :=
  samples <- mapM (getitem ds) idxs ;;
  Ok (map fst samples, map snd samples).

(** Modelled from the spec: one pass over the loader.  Batches are
    produced on demand, so a pass is a list of fetches, each of which
    may raise when it is reached. *)
Definition iter_loader (dl : DataLoader)
  : list (result (list (list (list A)) * list (list (list A)))) :=
  map (fetch (dataset dl))
      (batch_sampler (batch_size dl) [] (range (dataset_len (dataset dl)))).

End Dataset.

Arguments UCIElectricityDataset A : clear implicits.
Arguments DataLoader A : clear implicits.

(** ** Tensors of rationals and the numpy operations of the validation pass *)

(** A batch of shape [[batch, time, features]]. *)
Definition tensor3 : Type := list (list (list Q)).

Definition batch_t : Type := (tensor3 * tensor3)%type.

Fixpoint zip_with {T U V : Type} (f : T -> U -> V) (l : list T) (r : list U)
  : list V :=
  match l, r with
  | x :: l', y :: r' => f x y :: zip_with f l' r'
  | _, _ => []
  end.

Definition Qsum (l : list Q) : Q := fold_right Qplus (0#1) l.

(** All scalars of a tensor, in row-major order. *)
Definition flatten (t : tensor3) : list Q := concat (concat t).

(** [np.abs(y - pred)] for two arrays of one shape (broadcasting of
    unequal shapes is not modelled; the statements assume one shape). *)
Definition error_abs (y pred : tensor3) : tensor3 :=
  zip_with (zip_with (zip_with (fun a b => Qabs (a - b)))) y pred.

(** [a.size] *)
Definition size (t : tensor3) : Z := len (flatten t).

(** [np.sum(a)] *)
Definition np_sum (t : tensor3) : Q := Qsum (flatten t).

(** [pred[:, -1, :]]: the last time step of every sample, shape
    [[batch, features]]. *)
Definition last_timestep (pred : tensor3) : result (list (list Q)) :=
  mapM (fun sample => index sample (-1)) pred.

(** A numpy array of rank 0, 1 or 2. *)
Inductive ndarray : Type :=
| Arr0 (x : Q)
| Arr1 (v : list Q)
| Arr2 (rows : list (list Q)).

(** [a.squeeze()] on a 2-D array: every axis of size 1 is dropped. *)
Definition squeeze (rows : list (list Q)) : ndarray :=
  match rows with
  | [r] => match r with
           | [x] => Arr0 x
           | _ => Arr1 r
           end
  | _ => if forallb (fun r => len r =? 1) rows then Arr1 (concat rows)
         else Arr2 rows
  end.

(** What iterating an array yields: scalars from rank 1, rows from rank 2. *)
Inductive item : Type :=
| Num (x : Q)
| Row (v : list Q).

(** [l.extend(a)]: a rank-0 array is not iterable. *)
Definition extend (l : list item) (a : ndarray) : result (list item) :=
  match a with
  | Arr0 _ => Raise TypeError
  | Arr1 v => Ok (l ++ map Num v)
  | Arr2 rows => Ok (l ++ map Row rows)
  end.

(** ** The train/validate loop (lines 192-238) *)

Inductive mode : Type :=
| Training
| Evaluating.

(** The accumulators of one validation pass. *)
Record val_acc : Type := mkAcc {
  sum_error : Q;
  sum_len : Z;
  last_preds : list item
}.

(** What the script leaves behind: the model, the epochs' mode switches in
    order, the printed MAE values and the last [last_preds] list. *)
Record run_state (M : Type) : Type := mkRun {
  model : M;
  trace : list (Z * mode);
  reports : list (Z * Q);
  plotted : option (list item)
}.
Arguments mkRun {M}.
Arguments model {M}.
Arguments trace {M}.
Arguments reports {M}.
Arguments plotted {M}.

Section Loop.

(** The network with its optimiser: a forward pass, and one update from
    a batch (loss, [zero_grad], [backward], [step]). *)
Variable model_state : Type.
Variable forward : model_state -> tensor3 -> tensor3.
Variable train_step : model_state -> tensor3 -> tensor3 -> model_state.

(** Body of [for val_batch in test_dataloader] (lines 224-235).  The
    unused [loss_val] is left out. *)
Definition validation_body (m : model_state) (acc : val_acc)
    (val_batch : result batch_t) : result val_acc :=
  '(X_val_batch, y_val_batch) <- val_batch ;;
  let y_pred_val := forward m X_val_batch in
  let e := error_abs y_val_batch y_pred_val in
  let sum_len' := sum_len acc + size e in
  let sum_error' := (sum_error acc + np_sum e)%Q in
  last <- last_timestep y_pred_val ;;
  last_preds' <- extend (last_preds acc) (squeeze last) ;;
  Ok (mkAcc sum_error' sum_len' last_preds').

(** [sum_error / sum_len] (line 237).  Both start as the integer 0, so a
    pass over no batch divides 0 by 0 and raises.  (A pass that counted no
    element on some batch would divide a numpy float by 0 and print nan;
    that case is not told apart here.) *)
Definition mae_of (acc : val_acc) : result Q :=
  if sum_len acc =? 0 then Raise ZeroDivisionError
  else Ok (sum_error acc / inject_Z (sum_len acc))%Q.

(** Lines 220-237: fresh accumulators, one pass, one division. *)
Definition validation (m : model_state) (batches : list (result batch_t))
  : result (Q * list item) :=
  acc <- foldM (validation_body m) (mkAcc (0#1) 0 []) batches ;;
  mae_val <- mae_of acc ;;
  Ok (mae_val, last_preds acc).

(** Body of [for idx, batch in enumerate(tepoch)] (lines 199-212). *)
Definition train_body (m : model_state) (batch : result batch_t)
  : result model_state :=
  '(X_batch, y_batch) <- batch ;;
  Ok (train_step m X_batch y_batch).

Definition enter (md : mode) (epoch : Z) (st : run_state model_state)
  : run_state model_state :=
  mkRun (model st) (trace st ++ [(epoch, md)]) (reports st) (plotted st).

(** One epoch (lines 196-238).  The state reached is returned also when
    the epoch raises. *)
Definition epoch_body (EVAL_PERIOD : Z)
    (train_dataloader test_dataloader : DataLoader Q)
    (st : run_state model_state) (epoch : Z)
  : run_state model_state * option exn :=
  let st := enter Training epoch st in
  match foldM train_body (model st) (iter_loader train_dataloader) with
  | Raise e => (st, Some e)
  | Ok m =>
      let st := mkRun m (trace st) (reports st) (plotted st) in
      match modulo epoch EVAL_PERIOD with
      | Raise e => (st, Some e)
      | Ok r =>
          if r =? EVAL_PERIOD - 1 then
            let st := enter Evaluating epoch st in
            match validation m (iter_loader test_dataloader) with
            | Raise e => (st, Some e)
            | Ok (mae_val, lp) =>
                (mkRun m (trace st) (reports st ++ [(epoch, mae_val)])
                       (Some lp), None)
            end
          else (st, None)
      end
  end.

(** [for epoch in ...]: an exception ends the run. *)
Fixpoint for_epochs (body : run_state model_state -> Z ->
                            run_state model_state * option exn)
    (st : run_state model_state) (epochs : list Z)
  : run_state model_state * option exn :=
  match epochs with
  | [] => (st, None)
  | epoch :: rest =>
      match body st epoch with
      | (st', None) => for_epochs body st' rest
      | (st', Some e) => (st', Some e)
      end
  end.

Definition run (N_EPOCHS EVAL_PERIOD : Z)
    (train_dataloader test_dataloader : DataLoader Q) (m0 : model_state)
  : run_state model_state * option exn :=
  for_epochs (epoch_body EVAL_PERIOD train_dataloader test_dataloader)
             (mkRun m0 [] [] None) (range N_EPOCHS).

End Loop.

Arguments validation_body {model_state} forward m acc val_batch.
Arguments validation {model_state} forward m batches.
Arguments train_body {model_state} train_step m batch.
Arguments enter {model_state} md epoch st.
Arguments epoch_body {model_state} forward train_step EVAL_PERIOD
  train_dataloader test_dataloader st epoch.
Arguments for_epochs {model_state} body st epochs.
Arguments run {model_state} forward train_step N_EPOCHS EVAL_PERIOD
  train_dataloader test_dataloader m0.

(** ** The spec's reference quantities for the validation error *)




(** ** Notions used in the statements *)

Section Notions.

Context {A : Type}.

(** The two slices taken at index [i] of the loop of [create_dataset]. *)
Definition history_at (df : list A) (lookback i : Z) : list A :=
  slice df i (i + lookback).

Definition target_at (df : list A) (lookback i : Z) : list A :=
  slice df (i + 1) (i + lookback + 1).

(** A dataset built as the script builds it, without transforms. *)
Definition plain (X y : list (list A)) : UCIElectricityDataset A :=
  mkDataset X y None None.

(** A stored pair as [__getitem__] hands it out. *)
Definition sample_of (p : list A * list A) : list (list A) * list (list A) :=
  (unsqueeze1 (fst p), unsqueeze1 (snd p)).

End Notions.

(** The sizes of the batches of one pass: full batches, then the rest. *)
Definition batch_sizes (B M : Z) : list Z :=
  repeat B (Z.to_nat (M / B))
  ++ (if M mod B =? 0 then [] else [M mod B]).

(** Two tensors of one shape, sample by sample and row by row. *)
Definition same_shape (y pred : tensor3) : Prop :=
  Forall2 (Forall2 (fun r1 r2 : list Q => length r1 = length r2)) y pred.

(** A tensor of shape [[n, L, F]]. *)
Definition has_shape (t : tensor3) (n L F : Z) : Prop :=
  len t = n /\
  Forall (fun sample => len sample = L /\
                        Forall (fun row : list Q => len row = F) sample) t.

(** One entry of [np.abs(y - pred)]. *)
Definition abs_diff (a b : Q) : Q := Qabs (a - b).

(** The targets and the predictions of a whole pass, flattened in the
    order the loop meets them. *)
Definition pass_targets (batches : list batch_t) : list Q :=
  concat (map (fun b => flatten (snd b)) batches).

Definition pass_preds {M : Type} (forward : M -> tensor3 -> tensor3) (m : M)
    (batches : list batch_t) : list Q :=
  concat (map (fun b => flatten (forward m (fst b))) batches).

Definition pass_errors {M : Type} (forward : M -> tensor3 -> tensor3) (m : M)
    (batches : list batch_t) : list Q :=
  zip_with abs_diff (pass_targets batches) (pass_preds forward m batches).

(** A batch the validation pass can score: target and prediction of one
    shape, the prediction of shape [[n, L, 1]] with two samples or more. *)
Definition scored {M : Type} (forward : M -> tensor3 -> tensor3) (m : M)
    (L : Z) (b : batch_t) : Prop :=
  same_shape (snd b) (forward m (fst b)) /\
  exists n, 2 <= n /\ has_shape (forward m (fst b)) n L 1.


(** The test of line 215. *)
Definition due (EVAL_PERIOD epoch : Z) : bool :=
  epoch mod EVAL_PERIOD =? EVAL_PERIOD - 1.


(** A stand-in network for concrete runs: it predicts its input and
    learns nothing. *)
Definition echo_forward (_ : unit) (x : tensor3) : tensor3 := x.

Definition echo_step (_ : unit) (_ _ : tensor3) : unit := tt.

(** Two validation batches of unequal sizes, three samples and two, of
    one time step each: the echo network is right on the first batch and
    off by 5 on the second. *)
Definition uneven_batches : list batch_t :=
  [ ([[[0#1]]; [[0#1]]; [[0#1]]], [[[0#1]]; [[0#1]]; [[0#1]]]);
    ([[[0#1]]; [[0#1]]], [[[5#1]]; [[5#1]]]) ].

(** A loader over the three windows of length 2 of the series 1, ..., 5. *)
Definition demo_loader (BATCH_SIZE : Z) : DataLoader Q :=
  mkLoader (plain [[1#1; 2#1]; [2#1; 3#1]; [3#1; 4#1]]
                  [[2#1; 3#1]; [3#1; 4#1]; [4#1; 5#1]]) BATCH_SIZE.

(** The script from the two series on: windows, datasets, loaders. *)
Definition loader_of (series : list Q) (LOOKBACK BATCH_SIZE : Z)
  : result (DataLoader Q) :=
  '(X, y) <- create_dataset series LOOKBACK ;;
  new_DataLoader (plain X y) BATCH_SIZE.

(** ** The rest of the script *)

(** Lines 72-73: [series[:train_size]] and [series[train_size:]].  The
    size is [int(len(df) * 0.67)] in the script, a floating-point product;
    it enters here as an integer. *)
Definition train_test_split {A : Type} (series : list A) (train_size : Z)
  : list A * list A :=
  (slice series 0 train_size, slice series train_size (len series)).

(** Line 71. *)
Definition test_size_of {A : Type} (series : list A) (train_size : Z) : Z :=
  len series - train_size.

(** What [next(it)] can do: yield, signal the end, or fail in the fetch. *)
Inductive next_outcome (T : Type) : Type :=
| Yield (v : T)
| StopIteration
| Failed (e : exn).
Arguments Yield {T} v.
Arguments StopIteration {T}.
Arguments Failed {T} e.

(** Lines 136 and 140: [next(iter(dataloader))]. *)
Definition next_iter {A : Type} (dl : DataLoader A)
  : next_outcome (list (list (list A)) * list (list (list A))) :=
  match iter_loader dl with
  | [] => StopIteration
  | Ok batch :: _ => Yield batch
  | Raise e :: _ => Failed e
  end.

(** One training pass over fetched batches (lines 199-210). *)
Definition train_pass_of {M : Type} (train_step : M -> tensor3 -> tensor3 -> M)
    (batches : list batch_t) (m : M) : M :=
  fold_left (fun m b => train_step m (fst b) (snd b)) batches m.


(** A fetched batch: the histories of its samples and their targets,
    each stacked (the pairing made in [fetch]). *)
Definition stack_of {A : Type}
    (samples : list (list (list A) * list (list A)))
  : list (list (list A)) * list (list (list A)) :=
  (map fst samples, map snd samples).


(** The two batches [demo_loader 2] yields. *)
Definition demo_batches : list batch_t :=
  [ ([[[1#1]; [2#1]]; [[2#1]; [3#1]]], [[[2#1]; [3#1]]; [[3#1]; [4#1]]]);
    ([[[3#1]; [4#1]]], [[[4#1]; [5#1]]]) ].


(** ** The client's column name (lines 61-63) *)

Module ClientName.

Import String DecimalString.

(** [str(n)] on an integer: decimal digits, with a minus sign when
    negative. *)
Definition str (n : Z) : string := NilZero.string_of_int (Z.to_int n).

Fixpoint copies (n : nat) (s : string) : string :=
  match n with
  | O => EmptyString
  | S n' => s ++ copies n' s
  end.

(** [k * s]: the empty string when [k <= 0]. *)
Definition str_times (k : Z) (s : string) : string := copies (Z.to_nat k) s.

(** Line 62: [(3 - len(str(CLIENT))) * "0" + str(CLIENT)]. *)
Definition client_suffix (CLIENT : Z) : string :=
  str_times (3 - Z.of_nat (length (str CLIENT))) "0" ++ str CLIENT.

(** Line 63: the column read from the frame. *)
Definition client_column (CLIENT : Z) : string :=
  "MT_" ++ client_suffix CLIENT.

(** [int(s)] on a decimal string. *)
Definition parse_int (s : string) : option Z :=
  option_map Z.of_int (NilZero.int_of_string s).

(** The digits of a number that is not negative. *)
Definition digits (n : Z) : Decimal.uint :=
  match n with
  | Z.pos p => Pos.to_uint p
  | _ => Decimal.D0 Decimal.Nil
  end.

End ClientName.

(** * Properties *)

(** ** Indexing, ranges and slices *)

Section PyFacts.

Context {T : Type}.

Lemma len_nonneg (l : list T) : 0 <= len l.
Proof. unfold len; lia. Qed.

Lemma len_app (l r : list T) : len (l ++ r) = len l + len r.
Proof. unfold len; rewrite length_app; lia. Qed.

Lemma index_nth (l : list T) (i : Z) :
  0 <= i ->
  index l i = match nth_error l (Z.to_nat i) with
              | Some v => Ok v
              | None => Raise IndexError
              end.
Proof.
  intros Hi; unfold index.
  destruct (i <? 0) eqn:E; [apply Z.ltb_lt in E; lia|].
  rewrite E; reflexivity.
Qed.

Lemma index_last (l : list T) (x : T) : index (l ++ [x]) (-1) = Ok x.
Proof.
  unfold index; change (-1 <? 0) with true; cbv iota.
  rewrite len_app; change (len [x]) with 1.
  pose proof (len_nonneg l) as H.
  replace (-1 + (len l + 1)) with (len l) by lia.
  destruct (len l <? 0) eqn:E; [apply Z.ltb_lt in E; lia|].
  unfold len; rewrite Nat2Z.id, nth_error_app2, Nat.sub_diag by lia.
  reflexivity.
Qed.

Lemma index_nil (i : Z) : index (@nil T) i = Raise IndexError.
Proof.
  unfold index; change (len (@nil T)) with 0.
  destruct (i <? 0); destruct (_ <? 0); try reflexivity;
    destruct (Z.to_nat _); reflexivity.
Qed.

Lemma clip_id (n x : Z) : 0 <= x <= n -> clip n x = x.
Proof.
  intros H; unfold clip.
  destruct (x <? 0) eqn:E; [apply Z.ltb_lt in E; lia | lia].
Qed.

Lemma clip_over (n x : Z) : 0 <= n <= x -> clip n x = n.
Proof.
  intros H; unfold clip.
  destruct (x <? 0) eqn:E; [apply Z.ltb_lt in E; lia | lia].
Qed.

(** A slice with both bounds inside the list. *)
Lemma slice_inside (l : list T) (a b : Z) :
  0 <= a <= b -> b <= len l ->
  slice l a b = firstn (Z.to_nat (b - a)) (skipn (Z.to_nat a) l).
Proof.
  intros Ha Hb; unfold slice; cbv zeta.
  rewrite !clip_id by lia; reflexivity.
Qed.

Lemma slice_len (l : list T) (a b : Z) :
  0 <= a <= b -> b <= len l -> len (slice l a b) = b - a.
Proof.
  intros Ha Hb; rewrite slice_inside by assumption.
  unfold len in *; rewrite length_firstn, length_skipn; lia.
Qed.

Lemma slice_index (l : list T) (a b k : Z) :
  0 <= a <= b -> b <= len l -> 0 <= k < b - a ->
  index (slice l a b) k = index l (a + k).
Proof.
  intros Ha Hb Hk; rewrite slice_inside by assumption.
  rewrite !index_nth by lia.
  rewrite nth_error_firstn.
  destruct (Nat.ltb_spec (Z.to_nat k) (Z.to_nat (b - a))) as [_|H]; [|lia].
  rewrite nth_error_skipn.
  replace (Z.to_nat a + Z.to_nat k)%nat with (Z.to_nat (a + k)) by lia.
  reflexivity.
Qed.

Lemma slice_empty (l : list T) (a : Z) : 0 <= a -> slice l a a = [].
Proof.
  intros Ha; unfold slice; cbv zeta.
  rewrite Z.sub_diag; reflexivity.
Qed.

Lemma index_inside (l : list T) (i : Z) :
  0 <= i < len l -> exists v, index l i = Ok v.
Proof.
  intros H; rewrite index_nth by lia.
  destruct (nth_error l (Z.to_nat i)) eqn:E; [eauto|].
  apply nth_error_None in E; unfold len in H; lia.
Qed.

End PyFacts.

Lemma len_map {T U : Type} (f : T -> U) (l : list T) : len (map f l) = len l.
Proof. unfold len; now rewrite length_map. Qed.

Lemma range_nonpos (n : Z) : n <= 0 -> range n = [].
Proof.
  intros H; unfold range.
  replace (Z.to_nat n) with 0%nat by lia; reflexivity.
Qed.

Lemma range_len (n : Z) : 0 <= n -> len (range n) = n.
Proof.
  intros H; unfold len, range; rewrite length_map, length_seq; lia.
Qed.

Lemma map_range_index {T : Type} (f : Z -> T) (n i : Z) :
  0 <= i < n -> index (map f (range n)) i = Ok (f i).
Proof.
  intros H; rewrite index_nth by lia.
  unfold range; rewrite map_map.
  rewrite nth_error_map, nth_error_seq.
  destruct (Nat.ltb_spec (Z.to_nat i) (Z.to_nat n)) as [_|H']; [|lia].
  simpl; rewrite Z2Nat.id by lia; reflexivity.
Qed.

(** ** Windows *)

Section WindowFacts.

Context {A : Type}.

(** The loop with its two [append]s builds the two lists of windows. *)
Lemma create_dataset_loop (df : list A) (lookback : Z) (idxs : list Z)
    (X y : list (list A)) :
  fold_left (create_dataset_body df lookback) idxs (X, y)
  = (X ++ map (history_at df lookback) idxs,
     y ++ map (target_at df lookback) idxs).
Proof.
  revert X y; induction idxs as [|i idxs IH]; intros X y; simpl.
  - now rewrite !app_nil_r.
  - rewrite IH, <- !app_assoc; reflexivity.
Qed.

Lemma create_dataset_maps (df : list A) (lookback : Z) :
  create_dataset df lookback
  = Ok (map (history_at df lookback) (range (len df - lookback)),
        map (target_at df lookback) (range (len df - lookback))).
Proof. unfold create_dataset; now rewrite create_dataset_loop. Qed.

Lemma skipn_cons_nth (l : list A) (n : nat) (x : A) :
  nth_error l n = Some x -> skipn n l = x :: skipn (S n) l.
Proof.
  revert l; induction n as [|n IH]; intros [|a l] H; try discriminate.
  - now inversion H.
  - simpl in H |- *. now apply IH.
Qed.

Lemma first_elements (df : list A) (lookback : Z) (n s : nat) :
  1 <= lookback ->
  Z.of_nat (s + n) + lookback <= len df ->
  mapM (fun h => index h 0)
       (map (history_at df lookback) (map Z.of_nat (seq s n)))
  = Ok (firstn n (skipn s df)).
Proof.
  intros HL; revert s; induction n as [|n IH]; intros s Hs.
  - reflexivity.
  - simpl seq; simpl map; simpl mapM.
    unfold history_at at 1.
    rewrite (slice_index df (Z.of_nat s) (Z.of_nat s + lookback) 0) by lia.
    rewrite Z.add_0_r, index_nth, Nat2Z.id by lia.
    destruct (nth_error df s) as [x|] eqn:E.
    + simpl bind. rewrite IH by lia.
      rewrite (skipn_cons_nth _ _ _ E); reflexivity.
    + apply nth_error_None in E; unfold len in Hs; lia.
Qed.

(** C1: for [1 <= L < N] the builder returns [N - L] histories and
    [N - L] targets; sample [i] has a history and a target of length [L]
    with [history[k] = S[i+k]] and [target[k] = S[i+1+k]]. *)
Theorem create_dataset_windows (S : list A) (L : Z) :
  1 <= L < len S ->
  exists X y,
    create_dataset S L = Ok (X, y) /\
    len X = len S - L /\
    len y = len S - L /\
    forall i, 0 <= i < len S - L ->
      exists h t,
        index X i = Ok h /\ index y i = Ok t /\
        len h = L /\ len t = L /\
        forall k, 0 <= k < L ->
          exists a b,
            index S (i + k) = Ok a /\ index h k = Ok a /\
            index S (i + 1 + k) = Ok b /\ index t k = Ok b.
Proof.
  intros HL.
  eexists _, _; split; [apply create_dataset_maps|].
  rewrite !len_map, range_len by lia.
  do 2 (split; [reflexivity|]).
  intros i Hi.
  exists (history_at S L i), (target_at S L i).
  rewrite !map_range_index by lia.
  do 2 (split; [reflexivity|]).
  unfold history_at, target_at.
  rewrite !slice_len by lia.
  do 2 (split; [lia|]).
  intros k Hk.
  destruct (index_inside S (i + k)) as [a Ha]; [lia|].
  destruct (index_inside S (i + 1 + k)) as [b Hb]; [lia|].
  exists a, b.
  rewrite !slice_index by lia.
  repeat split; assumption.
Qed.

(** C4: a window length that is at least the series length gives the
    empty sample set, and nothing is raised. *)
Theorem create_dataset_long_window (S : list A) (L : Z) :
  len S <= L -> create_dataset S L = Ok ([], []).
Proof.
  intros H; unfold create_dataset.
  rewrite range_nonpos by lia; reflexivity.
Qed.

(** C6: for [1 <= L < N] the first elements of the histories, in sample
    order, are [S[0 : N-L]]. *)
Theorem create_dataset_first_elements (S : list A) (L : Z) :
  1 <= L < len S ->
  exists X y,
    create_dataset S L = Ok (X, y) /\
    mapM (fun h => index h 0) X = Ok (slice S 0 (len S - L)).
Proof.
  intros HL.
  eexists _, _; split; [apply create_dataset_maps|].
  unfold range; rewrite first_elements by lia.
  rewrite slice_inside by lia.
  rewrite Z.sub_0_r; reflexivity.
Qed.

(** C10: with window length 0 the builder raises nothing and returns
    [|S|] pairs of empty sequences. *)
Theorem create_dataset_zero_window (S : list A) :
  create_dataset S 0
  = Ok (repeat [] (length S), repeat [] (length S)).
Proof.
  rewrite create_dataset_maps, Z.sub_0_r.
  unfold range, len; rewrite Nat2Z.id.
  assert (E : forall (f : Z -> list A) n s,
             (forall i, 0 <= i -> f i = []) ->
             map f (map Z.of_nat (seq s n)) = repeat [] n).
  { intros f n; induction n as [|n IH]; intros s Hf; simpl.
    - reflexivity.
    - rewrite Hf by lia; f_equal; now apply IH. }
  rewrite !E; [reflexivity| |].
  - intros i Hi; unfold target_at.
    replace (i + 0 + 1) with (i + 1) by lia; apply slice_empty; lia.
  - intros i Hi; unfold history_at.
    rewrite Z.add_0_r; now apply slice_empty.
Qed.

End WindowFacts.

Lemma create_dataset_windows_witness :
  1 <= 2 < len [10; 20; 30; 40] /\
  exists X y,
    create_dataset [10; 20; 30; 40] 2 = Ok (X, y) /\
    len X = len [10; 20; 30; 40] - 2 /\
    len y = len [10; 20; 30; 40] - 2 /\
    forall i, 0 <= i < len [10; 20; 30; 40] - 2 ->
      exists h t,
        index X i = Ok h /\ index y i = Ok t /\
        len h = 2 /\ len t = 2 /\
        forall k, 0 <= k < 2 ->
          exists a b,
            index [10; 20; 30; 40] (i + k) = Ok a /\ index h k = Ok a /\
            index [10; 20; 30; 40] (i + 1 + k) = Ok b /\ index t k = Ok b.
Proof.
  assert (H : 1 <= 2 < len [10; 20; 30; 40]) by (vm_compute; split; congruence).
  split; [exact H | exact (create_dataset_windows [10; 20; 30; 40] 2 H)].
Defined.

Lemma create_dataset_long_window_witness :
  len [1; 2; 3] <= 5 /\ create_dataset [1; 2; 3] 5 = Ok ([], []).
Proof.
  assert (H : len [1; 2; 3] <= 5) by (vm_compute; congruence).
  split; [exact H | exact (create_dataset_long_window [1; 2; 3] 5 H)].
Defined.

Lemma create_dataset_first_elements_witness :
  1 <= 2 < len [10; 20; 30; 40] /\
  exists X y,
    create_dataset [10; 20; 30; 40] 2 = Ok (X, y) /\
    mapM (fun h => index h 0) X = Ok (slice [10; 20; 30; 40] 0 (len [10; 20; 30; 40] - 2)).
Proof.
  assert (H : 1 <= 2 < len [10; 20; 30; 40]) by (vm_compute; split; congruence).
  split; [exact H | exact (create_dataset_first_elements [10; 20; 30; 40] 2 H)].
Defined.

(** ** Loops that may raise *)

Lemma mapM_app {T U : Type} (f : T -> result U) (l1 l2 : list T) :
  mapM f (l1 ++ l2)
  = (r1 <- mapM f l1 ;; r2 <- mapM f l2 ;; Ok (r1 ++ r2)).
Proof.
  induction l1 as [|x l1 IH]; simpl.
  - destruct (mapM f l2); reflexivity.
  - destruct (f x); simpl; [|reflexivity].
    rewrite IH. destruct (mapM f l1); simpl; [|reflexivity].
    destruct (mapM f l2); reflexivity.
Qed.

Lemma mapM_length {T U : Type} (f : T -> result U) (l : list T) (r : list U) :
  mapM f l = Ok r -> length r = length l.
Proof.
  revert r; induction l as [|x l IH]; simpl; intros r H.
  - now inversion H.
  - destruct (f x); simpl in H; [|discriminate].
    destruct (mapM f l); simpl in H; [|discriminate].
    inversion H; simpl; f_equal; now apply IH.
Qed.

(** Reading a list batch by batch reads its concatenation. *)
Lemma mapM_concat {T U : Type} (f : T -> result U) (ls : list (list T))
    (r : list U) :
  mapM f (concat ls) = Ok r ->
  exists rs,
    mapM (mapM f) ls = Ok rs /\ concat rs = r /\
    map (@length U) rs = map (@length T) ls.
Proof.
  revert r; induction ls as [|l ls IH]; simpl; intros r H.
  - inversion H; exists []; auto.
  - rewrite mapM_app in H.
    destruct (mapM f l) as [r1|] eqn:E1; simpl in H; [|discriminate].
    destruct (mapM f (concat ls)) as [r2|] eqn:E2; simpl in H; [|discriminate].
    inversion H; subst r.
    destruct (IH r2 eq_refl) as (rs & Hrs & Hc & Hl).
    exists (r1 :: rs); rewrite Hrs; simpl.
    repeat split; [now rewrite Hc|].
    now rewrite Hl, (mapM_length _ _ _ E1).
Qed.

Lemma mapM_map_Ok {T U : Type} (f : T -> result U) (l : list T) (r : list U) :
  mapM f l = Ok r -> map f l = map Ok r.
Proof.
  revert r; induction l as [|x l IH]; simpl; intros r H.
  - now inversion H.
  - destruct (f x) eqn:E; simpl in H; [|discriminate].
    destruct (mapM f l); simpl in H; [|discriminate].
    inversion H; simpl; f_equal; now apply IH.
Qed.

Lemma nth_error_combine {T U : Type} (l : list T) (r : list U) (n : nat) :
  nth_error (combine l r) n
  = match nth_error l n, nth_error r n with
    | Some a, Some b => Some (a, b)
    | _, _ => None
    end.
Proof.
  revert r n; induction l as [|a l IH]; intros [|b r] [|n]; simpl;
    try reflexivity.
  - destruct (nth_error l n); reflexivity.
  - apply IH.
Qed.

Lemma map_fst_combine {T U : Type} (l : list T) (r : list U) :
  length l = length r -> map fst (combine l r) = l.
Proof.
  revert r; induction l as [|a l IH]; intros [|b r] H; simpl in *;
    try discriminate; [reflexivity|].
  f_equal; apply IH; lia.
Qed.

Lemma map_snd_combine {T U : Type} (l : list T) (r : list U) :
  length l = length r -> map snd (combine l r) = r.
Proof.
  revert r; induction l as [|a l IH]; intros [|b r] H; simpl in *;
    try discriminate; [reflexivity|].
  f_equal; apply IH; lia.
Qed.

(** Reading positions [s .. s+n-1] of a list one by one. *)
Lemma mapM_index_seq {T U : Type} (g : T -> U) (l : list T) (n s : nat) :
  (s + n <= length l)%nat ->
  mapM (fun i => r <- index l i ;; Ok (g r)) (map Z.of_nat (seq s n))
  = Ok (map g (firstn n (skipn s l))).
Proof.
  revert s; induction n as [|n IH]; intros s Hs; [reflexivity|].
  simpl seq; simpl map; simpl mapM.
  rewrite index_nth, Nat2Z.id by lia.
  destruct (nth_error l s) as [x|] eqn:E.
  - simpl bind. rewrite IH by lia.
    rewrite (skipn_cons_nth _ _ _ E); reflexivity.
  - apply nth_error_None in E; lia.
Qed.

(** ** The dataset wrapper and the batch source *)

Section SamplerFacts.

Lemma batch_sampler_concat (B : Z) (idxs batch : list Z) :
  concat (batch_sampler B batch idxs) = batch ++ idxs.
Proof.
  revert batch; induction idxs as [|i idxs IH]; intros batch; simpl.
  - destruct (0 <? len batch) eqn:E; simpl; [reflexivity|].
    destruct batch; [reflexivity|].
    apply Z.ltb_ge in E; unfold len in E; simpl in E; lia.
  - destruct (len (batch ++ [i]) =? B); simpl; rewrite IH.
    + now rewrite <- app_assoc.
    + now rewrite <- app_assoc.
Qed.

Lemma batch_sizes_step (B M : Z) :
  0 < B -> 0 <= M -> batch_sizes B (B + M) = B :: batch_sizes B M.
Proof.
  intros HB HM; unfold batch_sizes.
  replace (B + M) with (M + 1 * B) by lia.
  rewrite Z.div_add, Z.mod_add by lia.
  pose proof (Z.div_pos M B HM HB).
  replace (Z.to_nat (M / B + 1)) with (S (Z.to_nat (M / B))) by lia.
  reflexivity.
Qed.

Lemma batch_sampler_sizes (B : Z) (idxs batch : list Z) :
  0 < B -> len batch < B ->
  map len (batch_sampler B batch idxs)
  = batch_sizes B (len batch + len idxs).
Proof.
  intros HB; revert batch; induction idxs as [|i idxs IH]; intros batch Hc.
  - simpl batch_sampler; change (len (@nil Z)) with 0; rewrite Z.add_0_r.
    pose proof (len_nonneg batch) as H0.
    unfold batch_sizes.
    rewrite Z.div_small, Z.mod_small by lia; simpl repeat.
    destruct (0 <? len batch) eqn:E.
    + apply Z.ltb_lt in E.
      destruct (len batch =? 0) eqn:E'; [apply Z.eqb_eq in E'; lia|].
      reflexivity.
    + apply Z.ltb_ge in E.
      replace (len batch) with 0 by lia; reflexivity.
  - simpl batch_sampler.
    pose proof (len_nonneg batch) as H0.
    pose proof (len_nonneg idxs) as H1.
    assert (E : len (i :: idxs) = 1 + len idxs)
      by (unfold len; simpl length; lia).
    assert (E' : len (batch ++ [i]) = len batch + 1)
      by (rewrite len_app; reflexivity).
    destruct (len (batch ++ [i]) =? B) eqn:Hfull.
    + apply Z.eqb_eq in Hfull.
      simpl map; rewrite IH by (change (len (@nil Z)) with 0; lia).
      change (len (@nil Z)) with 0; rewrite Z.add_0_l, Hfull, E.
      replace (len batch + (1 + len idxs)) with (B + len idxs) by lia.
      now rewrite batch_sizes_step.
    + apply Z.eqb_neq in Hfull.
      rewrite IH by lia.
      f_equal; lia.
Qed.

Lemma ceil_div (B M : Z) :
  0 < B -> 0 <= M ->
  (M + B - 1) / B = M / B + (if M mod B =? 0 then 0 else 1).
Proof.
  intros HB HM.
  pose proof (Z.div_mod M B ltac:(lia)) as Hdm.
  pose proof (Z.mod_pos_bound M B HB) as Hm.
  destruct (M mod B =? 0) eqn:E.
  - apply Z.eqb_eq in E.
    symmetry; apply (Z.div_unique _ _ _ (B - 1)); lia.
  - apply Z.eqb_neq in E.
    symmetry; apply (Z.div_unique _ _ _ (M mod B - 1)); lia.
Qed.

Lemma batch_sizes_len (B M : Z) :
  0 < B -> 0 <= M -> len (batch_sizes B M) = (M + B - 1) / B.
Proof.
  intros HB HM; rewrite ceil_div by assumption.
  unfold batch_sizes; rewrite len_app.
  pose proof (Z.div_pos M B HM HB).
  unfold len at 1; rewrite repeat_length, Z2Nat.id by assumption.
  destruct (M mod B =? 0); reflexivity.
Qed.

Lemma batch_sizes_full (B M j : Z) :
  0 <= j < M / B -> index (batch_sizes B M) j = Ok B.
Proof.
  intros Hj; rewrite index_nth by lia.
  unfold batch_sizes.
  rewrite nth_error_app1 by (rewrite repeat_length; lia).
  rewrite nth_error_repeat by lia; reflexivity.
Qed.

Lemma batch_sizes_last (B M : Z) :
  0 < B -> 0 < M ->
  index (batch_sizes B M) (-1)
  = Ok (if M mod B =? 0 then B else M mod B).
Proof.
  intros HB HM; unfold batch_sizes.
  destruct (M mod B =? 0) eqn:E.
  - rewrite app_nil_r.
    apply Z.eqb_eq in E.
    assert (0 < M / B).
    { pose proof (Z.div_mod M B ltac:(lia)).
      pose proof (Z.div_pos M B ltac:(lia) HB). nia. }
    destruct (Z.to_nat (M / B)) as [|q] eqn:Eq; [lia|].
    simpl repeat; rewrite repeat_cons. apply index_last.
  - apply index_last.
Qed.

End SamplerFacts.

(** Sizes carried from a list of sizes to the list they measure. *)
Lemma index_map_inv {T U : Type} (f : T -> U) (l : list T) (i : Z) (u : U) :
  index (map f l) i = Ok u -> exists v, index l i = Ok v /\ f v = u.
Proof.
  unfold index; rewrite len_map.
  destruct (_ <? 0); [discriminate|].
  rewrite nth_error_map.
  destruct (nth_error l _) as [v|]; simpl; [|discriminate].
  intros H; inversion H; eauto.
Qed.

Section DatasetFacts.

Context {A : Type}.


Lemma unsqueeze1_len (v : list A) : len (unsqueeze1 v) = len v.
Proof. apply len_map. Qed.

Lemma unsqueeze1_rows (v : list A) :
  Forall (fun row => len row = 1) (unsqueeze1 v).
Proof. induction v; simpl; constructor; auto. Qed.


Lemma getitem_combine (X y : list (list A)) (i : Z) :
  0 <= i ->
  getitem (plain X y) i
  = (r <- index (combine X y) i ;; Ok (sample_of r)).
Proof.
  intros Hi; unfold getitem; simpl.
  rewrite !index_nth, nth_error_combine by assumption.
  destruct (nth_error X _), (nth_error y _); reflexivity.
Qed.

Lemma getitem_all (X y : list (list A)) :
  length y = length X ->
  mapM (getitem (plain X y)) (range (len X))
  = Ok (map sample_of (combine X y)).
Proof.
  intros Hlen.
  assert (E : forall l,
             mapM (getitem (plain X y)) (map Z.of_nat l)
             = mapM (fun i => r <- index (combine X y) i ;; Ok (sample_of r))
                    (map Z.of_nat l)).
  { induction l as [|n l IH]; simpl; [reflexivity|].
    now rewrite getitem_combine, IH by lia. }
  unfold range; rewrite E, mapM_index_seq.
  - unfold len; rewrite Nat2Z.id, skipn_O, firstn_all2; [reflexivity|].
    rewrite length_combine; lia.
  - unfold len; rewrite Nat2Z.id, length_combine; lia.
Qed.

(** C5: with [B > 0] and [M] samples, one pass of the unshuffled batch
    source yields [ceil(M/B)] batches, written [(M + B - 1) / B]; each of
    the first [M / B] has [B] samples; the last has [M mod B] samples, or
    [B] when [B] divides [M]; the batches concatenated are the samples in
    their stored order.  A pass is a function of the dataset and of [B]
    alone, so every epoch sees these batches. *)
Theorem loader_batches_in_order (X y : list (list A)) (B : Z) :
  0 < B -> len y = len X ->
  exists dl batches,
    new_DataLoader (plain X y) B = Ok dl /\
    iter_loader dl = map Ok batches /\
    len batches = (len X + B - 1) / B /\
    (forall j, 0 <= j < len X / B ->
       exists b, index batches j = Ok b /\
                 len (fst b) = B /\ len (snd b) = B) /\
    (0 < len X ->
       exists b, index batches (-1) = Ok b /\
                 len (fst b) = (if len X mod B =? 0 then B
                                else len X mod B) /\
                 len (snd b) = len (fst b)) /\
    concat (map fst batches) = map unsqueeze1 X /\
    concat (map snd batches) = map unsqueeze1 y.
Proof.
  intros HB Hlen.
  assert (Hlen' : length y = length X) by (unfold len in Hlen; lia).
  pose proof (len_nonneg X) as HM.
  set (idxs := batch_sampler B [] (range (len X))).
  assert (Hall := getitem_all X y Hlen').
  pose proof (batch_sampler_concat B (range (len X)) []) as Hc.
  simpl app in Hc; rewrite <- Hc in Hall; clear Hc; fold idxs in Hall.
  destruct (mapM_concat _ _ _ Hall) as (rs & Hrs & Hcat & Hsz).
  set (stack := fun samples : list (list (list A) * list (list A)) =>
                  (map fst samples, map snd samples)).
  exists (mkLoader (plain X y) B), (map stack rs).
  assert (Hsizes : map len (map fst (map stack rs))
                   = batch_sizes B (len X)).
  { rewrite !map_map; simpl.
    transitivity (map Z.of_nat (map (@length _) rs)).
    - rewrite map_map; apply map_ext; intros a.
      unfold len; now rewrite length_map.
    - rewrite Hsz. unfold idxs.
      pose proof (batch_sampler_sizes B (range (len X)) [] HB) as Hs.
      change (len (@nil Z)) with 0 in Hs.
      rewrite Z.add_0_l, range_len in Hs by assumption.
      rewrite <- Hs by assumption.
      now rewrite map_map. }
  assert (Hsnd : forall b, In b (map stack rs) -> len (snd b) = len (fst b)).
  { intros b Hb; apply in_map_iff in Hb as (s & <- & _); simpl.
    unfold len; now rewrite !length_map. }
  split.
  { unfold new_DataLoader.
    destruct (B <=? 0) eqn:E; [apply Z.leb_le in E; lia | reflexivity]. }
  split.
  { unfold iter_loader; simpl dataset; simpl batch_size.
    unfold dataset_len; simpl features; fold idxs.
    rewrite map_map.
    rewrite <- (map_map (mapM (getitem (plain X y)))
                  (fun r => s <- r ;; Ok (stack s))).
    rewrite (mapM_map_Ok _ _ _ Hrs), map_map; reflexivity. }
  split.
  { rewrite <- (len_map (fun b => len (fst b))), <- (map_map fst len), Hsizes.
    now apply batch_sizes_len. }
  split.
  { intros j Hj.
    pose proof (batch_sizes_full B (len X) j Hj) as Hfull.
    rewrite <- Hsizes, map_map in Hfull.
    apply index_map_inv in Hfull as (b & Hb & Hsize).
    exists b; repeat split; auto.
    rewrite Hsnd; auto.
    unfold index in Hb; destruct (_ <? 0); [discriminate|].
    destruct (nth_error _ _) eqn:E; inversion Hb; subst.
    eapply nth_error_In; eauto. }
  split.
  { intros Hpos.
    pose proof (batch_sizes_last B (len X) HB Hpos) as Hlast.
    rewrite <- Hsizes, map_map in Hlast.
    apply index_map_inv in Hlast as (b & Hb & Hsize).
    exists b; repeat split; auto.
    apply Hsnd.
    unfold index in Hb; destruct (_ <? 0); [discriminate|].
    destruct (nth_error _ _) eqn:E; inversion Hb; subst.
    eapply nth_error_In; eauto. }
  assert (Hf : forall (T U : Type) (f : T -> U) (ls : list (list T)),
             concat (map (map f) ls) = map f (concat ls))
    by (intros; now rewrite concat_map).
  split.
  - rewrite map_map; simpl.
    rewrite <- (map_map _ (map fst)) at 1.
    rewrite map_id, Hf, Hcat, map_map; simpl.
    rewrite <- (map_map fst unsqueeze1), map_fst_combine; auto.
  - rewrite map_map; simpl.
    rewrite <- (map_map _ (map snd)) at 1.
    rewrite map_id, Hf, Hcat, map_map; simpl.
    rewrite <- (map_map snd unsqueeze1), map_snd_combine; auto.
Qed.

End DatasetFacts.


Lemma loader_batches_in_order_witness :
  exists dl batches,
    new_DataLoader (plain [[1]; [2]; [3]; [4]; [5]] [[2]; [3]; [4]; [5]; [6]]) 2
    = Ok dl /\
    iter_loader dl = map Ok batches /\
    len batches = (len [[1]; [2]; [3]; [4]; [5]] + 2 - 1) / 2 /\
    (forall j, 0 <= j < len [[1]; [2]; [3]; [4]; [5]] / 2 ->
       exists b, index batches j = Ok b /\
                 len (fst b) = 2 /\ len (snd b) = 2) /\
    (0 < len [[1]; [2]; [3]; [4]; [5]] ->
       exists b, index batches (-1) = Ok b /\
                 len (fst b) = (if len [[1]; [2]; [3]; [4]; [5]] mod 2 =? 0
                                then 2
                                else len [[1]; [2]; [3]; [4]; [5]] mod 2) /\
                 len (snd b) = len (fst b)) /\
    concat (map fst batches) = map unsqueeze1 [[1]; [2]; [3]; [4]; [5]] /\
    concat (map snd batches) = map unsqueeze1 [[2]; [3]; [4]; [5]; [6]].
Proof.
  exact (loader_batches_in_order
           [[1]; [2]; [3]; [4]; [5]] [[2]; [3]; [4]; [5]; [6]] 2
           eq_refl eq_refl).
Defined.

(** ** Window lengths that leave no sample *)

(** C3 as stated does not hold: the builder raises on no input at all; at
    [S = [1; 2; 3]] and [L = 3] it returns the empty pair. *)
Lemma long_window_is_not_rejected :
  len [1; 2; 3] <= 3 /\
  create_dataset [1; 2; 3] 3 = Ok ([], []) /\
  (forall e, create_dataset [1; 2; 3] 3 <> Raise e).
Proof.
  split; [vm_compute; congruence|].
  split; [reflexivity | intros e H; discriminate H].
Qed.

(** C3, amended: with [L >= |S|] nothing is raised before training; the
    builder returns the empty sample set, the dataset built from it has
    length 0 and a pass of its batch source yields no batch. *)
Theorem long_window_leaves_no_batch {A : Type} (S : list A) (L B : Z) :
  len S <= L ->
  exists X y,
    create_dataset S L = Ok (X, y) /\
    dataset_len (plain X y) = 0 /\
    iter_loader (mkLoader (plain X y) B) = [].
Proof.
  intros H; exists [], [].
  unfold create_dataset; rewrite range_nonpos by lia.
  repeat split.
Qed.

Lemma long_window_leaves_no_batch_witness :
  len [1; 2; 3] <= 3 /\
  exists X y,
    create_dataset [1; 2; 3] 3 = Ok (X, y) /\
    dataset_len (plain X y) = 0 /\
    iter_loader (mkLoader (plain X y) 64) = [].
Proof.
  assert (H : len [1; 2; 3] <= 3) by (vm_compute; congruence).
  split; [exact H | exact (long_window_leaves_no_batch [1; 2; 3] 3 64 H)].
Defined.

(** ** Elementwise operations on tensors of one shape *)

Section ZipFacts.

Context {T U V : Type}.
Variable f : T -> U -> V.


Lemma zip_with_app (l1 l2 : list T) (r1 r2 : list U) :
  length l1 = length r1 ->
  zip_with f (l1 ++ l2) (r1 ++ r2) = zip_with f l1 r1 ++ zip_with f l2 r2.
Proof.
  revert r1; induction l1 as [|x l1 IH]; intros [|y r1] H; simpl in *;
    try discriminate; [reflexivity|].
  f_equal; apply IH; lia.
Qed.

Lemma zip_with_concat (l : list (list T)) (r : list (list U)) :
  Forall2 (fun a b => length a = length b) l r ->
  concat (zip_with (zip_with f) l r) = zip_with f (concat l) (concat r).
Proof.
  induction 1 as [|a b l r Hab _ IH]; simpl; [reflexivity|].
  now rewrite zip_with_app, IH.
Qed.

End ZipFacts.

Lemma Forall2_concat {T U : Type} (R : T -> U -> Prop)
    (l : list (list T)) (r : list (list U)) :
  Forall2 (Forall2 R) l r -> Forall2 R (concat l) (concat r).
Proof.
  induction 1 as [|a b l r Hab _ IH]; simpl; [constructor|].
  now apply Forall2_app.
Qed.

Lemma Forall2_lengths {T U : Type} (R : T -> U -> Prop)
    (l : list (list T)) (r : list (list U)) :
  Forall2 (Forall2 R) l r -> Forall2 (fun a b => length a = length b) l r.
Proof.
  induction 1 as [|a b l r Hab _ IH]; constructor; auto.
  eapply Forall2_length; eauto.
Qed.

Lemma concat_same_length {T U : Type} (l : list (list T)) (r : list (list U)) :
  Forall2 (fun a b => length a = length b) l r ->
  length (concat l) = length (concat r).
Proof.
  induction 1 as [|a b l r Hab _ IH]; simpl; [reflexivity|].
  rewrite !length_app; lia.
Qed.

Lemma flatten_same_length (y pred : tensor3) :
  same_shape y pred -> length (flatten y) = length (flatten pred).
Proof.
  intros H; unfold flatten.
  apply concat_same_length, Forall2_concat; exact H.
Qed.

(** The array of absolute errors, flattened, pairs the flattened target
    with the flattened prediction. *)
Lemma flatten_error_abs (y pred : tensor3) :
  same_shape y pred ->
  flatten (error_abs y pred) = zip_with abs_diff (flatten y) (flatten pred).
Proof.
  intros H; unfold flatten, error_abs.
  rewrite zip_with_concat by (apply Forall2_lengths in H; exact H).
  rewrite zip_with_concat by (apply Forall2_concat; exact H).
  reflexivity.
Qed.

(** ** Sums of rationals *)

Lemma Qsum_app (a b : list Q) : (Qsum (a ++ b) == Qsum a + Qsum b)%Q.
Proof.
  induction a as [|x a IH]; simpl.
  - ring.
  - rewrite IH; ring.
Qed.



(** ** The validation pass *)

Section ValidationFacts.

Context {model_state : Type}.
Variable forward : model_state -> tensor3 -> tensor3.

(** What the two running totals hold after any number of batches. *)
Lemma validation_totals (m : model_state) (batches : list batch_t) :
  Forall (fun b => same_shape (snd b) (forward m (fst b))) batches ->
  forall acc0 acc,
    foldM (validation_body forward m) acc0 (map Ok batches) = Ok acc ->
    (sum_error acc == sum_error acc0 + Qsum (pass_errors forward m batches))%Q /\
    sum_len acc = sum_len acc0 + len (pass_errors forward m batches).
Proof.
  induction 1 as [|[Xb yb] bs Hb _ IH]; intros acc0 acc Hrun.
  - simpl in Hrun; inversion Hrun; subst acc.
    unfold pass_errors; simpl; split; [ring | unfold len; simpl; lia].
  - simpl in Hb. simpl map in Hrun. simpl foldM in Hrun.
    unfold validation_body at 1 in Hrun; simpl bind in Hrun.
    destruct (last_timestep (forward m Xb)) as [rows|]; simpl bind in Hrun;
      [|discriminate].
    destruct (extend (last_preds acc0) (squeeze rows)) as [lp|];
      simpl bind in Hrun; [|discriminate].
    destruct (IH _ _ Hrun) as [Hs Hl]; simpl in Hs, Hl.
    assert (E : pass_errors forward m ((Xb, yb) :: bs)
                = flatten (error_abs yb (forward m Xb)) ++ pass_errors forward m bs).
    { unfold pass_errors, pass_targets, pass_preds; simpl.
      rewrite zip_with_app by now apply flatten_same_length.
      now rewrite flatten_error_abs. }
    rewrite E, Qsum_app, len_app.
    unfold np_sum in Hs; unfold size in Hl.
    split; [rewrite Hs; ring | lia].
Qed.

Lemma len_zero_nil {T : Type} (l : list T) : len l = 0 -> l = [].
Proof. destruct l; [reflexivity | unfold len; simpl; lia]. Qed.


End ValidationFacts.

(** ** The last time step and [squeeze] *)

Lemma last_timestep_shape (pred : tensor3) (n L F : Z) :
  has_shape pred n L F -> 1 <= L ->
  exists rows,
    last_timestep pred = Ok rows /\ len rows = n /\
    Forall (fun r => len r = F) rows.
Proof.
  intros [Hn Hall] HL; subst n.
  induction Hall as [|s pred [Hs Hrows] _ IH].
  - exists []; repeat split; constructor.
  - destruct IH as (rows & Hlast & Hlen & HF).
    destruct (exists_last (l := s)) as (s' & r & ->).
    { intros ->; unfold len in Hs; simpl in Hs; lia. }
    exists (r :: rows).
    unfold last_timestep in *; simpl mapM.
    rewrite index_last; simpl bind; rewrite Hlast; simpl bind.
    repeat split.
    + unfold len in *; simpl length; lia.
    + constructor; [|assumption].
      apply Forall_app in Hrows as [_ Hr]; now inversion Hr.
Qed.

Lemma len_one {T : Type} (l : list T) : len l = 1 -> exists x, l = [x].
Proof.
  destruct l as [|x [|x' l]]; unfold len; simpl; intros H; try lia.
  now exists x.
Qed.

Lemma concat_singletons (rows : list (list Q)) :
  Forall (fun r => len r = 1) rows -> len (concat rows) = len rows.
Proof.
  induction 1 as [|r rows Hr _ IH]; [reflexivity|].
  apply len_one in Hr as [x ->]; simpl concat.
  unfold len in *; simpl length; lia.
Qed.

(** Several rows of one element squeeze to a vector. *)
Lemma squeeze_column (rows : list (list Q)) :
  len rows <> 1 -> Forall (fun r => len r = 1) rows ->
  squeeze rows = Arr1 (concat rows).
Proof.
  intros Hn HF.
  assert (Hb : forallb (fun r => len r =? 1) rows = true).
  { apply forallb_forall; intros r Hr.
    rewrite Forall_forall in HF; apply Z.eqb_eq; auto. }
  unfold squeeze; rewrite Hb.
  destruct rows as [|r [|r' rows]]; try reflexivity.
  exfalso; apply Hn; reflexivity.
Qed.



Section ValidationRuns.

Context {model_state : Type}.
Variable forward : model_state -> tensor3 -> tensor3.

(** A batch whose prediction has shape [[n, L, 1]] with [n] other than 1
    passes through the loop body and adds [n] scalars. *)
Lemma validation_body_column (m : model_state) (acc : val_acc)
    (Xb yb : tensor3) (n L : Z) :
  has_shape (forward m Xb) n L 1 -> n <> 1 -> 1 <= L ->
  exists rows,
    last_timestep (forward m Xb) = Ok rows /\
    len (concat rows) = n /\
    validation_body forward m acc (@Ok batch_t (Xb, yb))
    = Ok (mkAcc (sum_error acc + np_sum (error_abs yb (forward m Xb)))%Q
                (sum_len acc + size (error_abs yb (forward m Xb)))
                (last_preds acc ++ map Num (concat rows))).
Proof.
  intros Hshape Hn HL.
  destruct (last_timestep_shape _ _ _ _ Hshape HL) as (rows & Hlast & Hlen & HF).
  exists rows; split; [assumption|]; split.
  - now rewrite concat_singletons.
  - unfold validation_body; simpl bind; rewrite Hlast; simpl bind.
    rewrite squeeze_column by (assumption || lia); reflexivity.
Qed.





End ValidationRuns.



(** ** The collected last-step predictions *)

Section LastPreds.

Context {model_state : Type}.
Variable forward : model_state -> tensor3 -> tensor3.

Lemma last_preds_fold (m : model_state) (L : Z) (batches : list batch_t) :
  1 <= L ->
  Forall (scored forward m L) batches ->
  forall acc0 acc,
    foldM (validation_body forward m) acc0 (map Ok batches) = Ok acc ->
    exists lasts,
      mapM (fun b => last_timestep (forward m (fst b))) batches = Ok lasts /\
      last_preds acc = last_preds acc0 ++ map Num (concat (concat lasts)) /\
      len (concat (concat lasts))
      = fold_right Z.add 0 (map (fun b => len (forward m (fst b))) batches).
Proof.
  intros HL; induction 1 as [|[Xb yb] bs [_ (n & Hn & Hshape)] _ IH];
    intros acc0 acc Hrun; cbn [map foldM mapM] in *.
  - inversion Hrun; subst acc; exists []; simpl.
    now rewrite app_nil_r.
  - simpl fst in *.
    destruct (validation_body_column forward m acc0 Xb yb n L Hshape)
      as (rows & Hlast & Hlen & Hbody); try lia.
    rewrite Hbody in Hrun; simpl bind in Hrun.
    destruct (IH _ _ Hrun) as (lasts & Hl & Hpreds & Hcount).
    exists (rows :: lasts).
    rewrite Hlast, Hl; simpl bind.
    simpl last_preds in Hpreds.
    split; [reflexivity|]; split.
    + rewrite Hpreds; simpl concat.
      now rewrite concat_app, map_app, app_assoc.
    + simpl concat; rewrite concat_app, len_app, Hcount, Hlen.
      destruct Hshape as [<- _]; reflexivity.
Qed.

(** X1: on batches of two samples or more, the list collected by a
    validation pass starts empty and ends with one scalar per validation sample, the
    last time step of each prediction, in batch order. *)
Theorem last_preds_one_per_sample (m : model_state) (L : Z)
    (batches : list batch_t) (mae : Q) (lp : list item) :
  1 <= L ->
  Forall (scored forward m L) batches ->
  validation forward m (map Ok batches) = Ok (mae, lp) ->
  exists lasts,
    mapM (fun b => last_timestep (forward m (fst b))) batches = Ok lasts /\
    lp = map Num (concat (concat lasts)) /\
    len lp = fold_right Z.add 0 (map (fun b => len (forward m (fst b))) batches).
Proof.
  intros HL Hall Hval; unfold validation in Hval.
  destruct (foldM _ _ _) as [acc|] eqn:Hfold; simpl bind in Hval;
    [|discriminate].
  destruct (mae_of acc); simpl bind in Hval; [|discriminate].
  inversion Hval; subst.
  destruct (last_preds_fold m L batches HL Hall _ _ Hfold)
    as (lasts & Hl & Hpreds & Hcount).
  exists lasts; simpl in Hpreds.
  rewrite Hpreds, len_map; auto.
Qed.

End LastPreds.

Lemma last_preds_one_per_sample_witness :
  exists lasts,
    mapM (fun b => last_timestep (echo_forward tt (fst b))) uneven_batches
    = Ok lasts /\
    repeat (Num (0#1)) 5 = map Num (concat (concat lasts)) /\
    len (repeat (Num (0#1)) 5)
    = fold_right Z.add 0
        (map (fun b => len (echo_forward tt (fst b))) uneven_batches).
Proof.
  refine (last_preds_one_per_sample echo_forward tt 1 uneven_batches
            (10 # 5)%Q (repeat (Num (0#1)) 5) _ _ eq_refl).
  - vm_compute; congruence.
  - repeat constructor; [exists 3 | exists 2];
      (split; [vm_compute; congruence | repeat constructor]).
Defined.

(** C9 fails on the code when a validation batch holds one sample.  Five
    held-out values with [LOOKBACK = 2] give three samples; with
    [BATCH_SIZE = 2] the second batch has one sample, [squeeze()] makes
    its last time step a rank-0 array, and [last_preds.extend(...)] raises
    [TypeError]: no list of one scalar per sample is produced.  With
    [BATCH_SIZE = 3] the same samples give three scalars. *)
Theorem last_preds_single_sample_batch :
  (exists dl batches,
     loader_of [1#1; 2#1; 3#1; 4#1; 5#1] 2 2 = Ok dl /\
     iter_loader dl = map Ok batches /\
     map (fun b => len (fst b)) batches = [2; 1] /\
     validation echo_forward tt (iter_loader dl) = Raise TypeError) /\
  (exists dl mae,
     loader_of [1#1; 2#1; 3#1; 4#1; 5#1] 2 3 = Ok dl /\
     validation echo_forward tt (iter_loader dl)
     = Ok (mae, [Num (2#1); Num (3#1); Num (4#1)])).
Proof.
  split.
  - exists (mkLoader (plain [[1#1; 2#1]; [2#1; 3#1]; [3#1; 4#1]]
                            [[2#1; 3#1]; [3#1; 4#1]; [4#1; 5#1]]) 2),
           [ ([[[1#1]; [2#1]]; [[2#1]; [3#1]]], [[[2#1]; [3#1]]; [[3#1]; [4#1]]]);
             ([[[3#1]; [4#1]]], [[[4#1]; [5#1]]]) ].
    repeat split; reflexivity.
  - exists (mkLoader (plain [[1#1; 2#1]; [2#1; 3#1]; [3#1; 4#1]]
                            [[2#1; 3#1]; [3#1; 4#1]; [4#1; 5#1]]) 3),
           (6 # 6)%Q.
    repeat split; reflexivity.
Qed.

(** ** The epochs *)

Lemma in_range (n e : Z) : In e (range n) <-> 0 <= e < n.
Proof.
  unfold range; rewrite in_map_iff; split.
  - intros (k & <- & Hk); apply in_seq in Hk; lia.
  - intros H; exists (Z.to_nat e); split; [lia|].
    apply in_seq; lia.
Qed.

Section TraceFacts.

Variable K : Z.




End TraceFacts.

Section LoopFacts.

Context {model_state : Type}.
Variable forward : model_state -> tensor3 -> tensor3.
Variable train_step : model_state -> tensor3 -> tensor3 -> model_state.
Variables (K : Z) (train_dataloader test_dataloader : DataLoader Q).

Hypothesis period : K <> 0.
Hypothesis train_fetches :
  exists batches, iter_loader train_dataloader = map Ok batches.
Hypothesis validation_ends :
  forall m, exists r, validation forward m (iter_loader test_dataloader) = Ok r.

Lemma train_pass (m : model_state) (batches : list batch_t) :
  foldM (train_body train_step) m (map Ok batches)
  = Ok (fold_left (fun m b => train_step m (fst b) (snd b)) batches m).
Proof.
  revert m; induction batches as [|[Xb yb] bs IH]; intros m; simpl;
    [reflexivity | apply IH].
Qed.



End LoopFacts.




(** * Further properties of the script *)

(** ** The train/test split *)

Section SplitFacts.

Context {A : Type}.

Lemma clip_bounds (n x : Z) : 0 <= n -> 0 <= clip n x <= n.
Proof.
  intros Hn; unfold clip; destruct (Z.ltb_spec x 0); lia.
Qed.

Lemma slice_prefix (l : list A) (k : Z) :
  slice l 0 k = firstn (Z.to_nat (clip (len l) k)) l.
Proof.
  unfold slice; cbv zeta.
  rewrite (clip_id (len l) 0) by (pose proof (len_nonneg l); lia).
  now rewrite Z.sub_0_r.
Qed.

Lemma slice_suffix (l : list A) (k : Z) :
  slice l k (len l) = skipn (Z.to_nat (clip (len l) k)) l.
Proof.
  pose proof (len_nonneg l) as Hn.
  pose proof (clip_bounds (len l) k Hn) as Hc.
  unfold slice; cbv zeta.
  rewrite (clip_id (len l) (len l)) by lia.
  apply firstn_all2; rewrite length_skipn; unfold len in *; lia.
Qed.

(** X2: the split loses and repeats nothing, whatever integer the train
    size is: train followed by test is the series.  With a train size
    between 0 and the length, the train part has that many values and the
    test part has [test_size] values. *)
Theorem train_test_split_partitions (series : list A) (train_size : Z) :
  fst (train_test_split series train_size)
  ++ snd (train_test_split series train_size) = series /\
  (0 <= train_size <= len series ->
   len (fst (train_test_split series train_size)) = train_size /\
   len (snd (train_test_split series train_size))
   = test_size_of series train_size).
Proof.
  unfold train_test_split, test_size_of; simpl fst; simpl snd.
  rewrite slice_prefix, slice_suffix; split.
  - apply firstn_skipn.
  - intros H; rewrite clip_id by assumption.
    unfold len in *; rewrite length_firstn, length_skipn; lia.
Qed.

End SplitFacts.

Lemma train_test_split_partitions_witness :
  len (fst (train_test_split [1; 2; 3; 4; 5] 3)) = 3 /\
  len (snd (train_test_split [1; 2; 3; 4; 5] 3))
  = test_size_of [1; 2; 3; 4; 5] 3.
Proof.
  refine (proj2 (train_test_split_partitions [1; 2; 3; 4; 5] 3) _).
  vm_compute; split; congruence.
Defined.

(** ** More on the windows *)

Section WindowMore.

Context {A : Type}.

Lemma range_length (n : Z) : len (range n) = Z.max 0 n.
Proof.
  unfold len, range; rewrite length_map, length_seq; lia.
Qed.

Lemma Forall_map_range {T : Type} (P : T -> Prop) (f : Z -> T) (n : Z) :
  (forall i, 0 <= i < n -> P (f i)) -> Forall P (map f (range n)).
Proof.
  intros H; apply Forall_forall; intros x Hx.
  apply in_map_iff in Hx as (i & <- & Hi).
  apply H, in_range, Hi.
Qed.

(** X3: for every integer window length the builder returns as many
    targets as histories, [max(0, N - L)] of each; with [L >= 0] every
    history and every target has exactly [L] values. *)
Theorem create_dataset_lengths (S : list A) (L : Z) :
  exists X y,
    create_dataset S L = Ok (X, y) /\
    len X = Z.max 0 (len S - L) /\
    len y = len X /\
    (0 <= L ->
     Forall (fun w => len w = L) X /\ Forall (fun w => len w = L) y).
Proof.
  eexists _, _; split; [apply create_dataset_maps|].
  rewrite !len_map, range_length.
  do 2 (split; [reflexivity|]).
  intros HL; split; apply Forall_map_range; intros i Hi.
  - unfold history_at; rewrite slice_len; lia.
  - unfold target_at; rewrite slice_len; lia.
Qed.

(** X4: the target of a sample is the history of the next sample:
    [y[i] = X[i+1]] whenever both exist. *)
Theorem target_is_next_history (S : list A) (L i : Z) :
  0 <= i -> i + 1 < len S - L ->
  exists X y w,
    create_dataset S L = Ok (X, y) /\
    index y i = Ok w /\ index X (i + 1) = Ok w.
Proof.
  intros H0 H1.
  eexists _, _, _; split; [apply create_dataset_maps|].
  rewrite !map_range_index by lia.
  split; [reflexivity|].
  unfold history_at, target_at; do 2 f_equal; lia.
Qed.

End WindowMore.

Lemma create_dataset_lengths_witness :
  exists X y,
    create_dataset [10; 20; 30; 40] 2 = Ok (X, y) /\
    len X = Z.max 0 (len [10; 20; 30; 40] - 2) /\
    len y = len X /\
    (0 <= 2 ->
     Forall (fun w => len w = 2) X /\ Forall (fun w => len w = 2) y).
Proof. exact (create_dataset_lengths [10; 20; 30; 40] 2). Defined.

Lemma target_is_next_history_witness :
  exists X y w,
    create_dataset [10; 20; 30; 40] 2 = Ok (X, y) /\
    index y 0 = Ok w /\ index X (0 + 1) = Ok w.
Proof.
  refine (target_is_next_history [10; 20; 30; 40] 2 0 _ _);
    vm_compute; congruence.
Defined.

(** ** Indices of the dataset wrapper *)

Section IndexMore.

Context {T : Type}.

Lemma index_out_of_range (l : list T) (i : Z) :
  len l <= i \/ i < - len l -> index l i = Raise IndexError.
Proof.
  intros H; unfold index; cbv zeta.
  pose proof (len_nonneg l) as Hn.
  destruct (Z.ltb_spec i 0) as [Hi|Hi].
  - destruct (Z.ltb_spec (i + len l) 0) as [_|Hj]; [reflexivity | lia].
  - destruct (Z.ltb_spec i 0) as [|_]; [lia|].
    destruct (nth_error l (Z.to_nat i)) eqn:E; [|reflexivity].
    assert (Z.to_nat i < length l)%nat
      by (apply nth_error_Some; congruence).
    unfold len in *; lia.
Qed.

Lemma index_from_end (l : list T) (i : Z) :
  0 <= i < len l -> index l (i - len l) = index l i.
Proof.
  intros H; unfold index; cbv zeta.
  destruct (Z.ltb_spec (i - len l) 0) as [_|]; [|lia].
  destruct (Z.ltb_spec i 0) as [|_]; [lia|].
  now replace (i - len l + len l) with i by lia.
Qed.

End IndexMore.

Section GetitemMore.

Context {A : Type}.

(** X5: [__getitem__] raises [IndexError] at every index outside
    [-len .. len-1] of the stored histories or of the stored targets,
    with or without transforms. *)
Theorem getitem_out_of_range (ds : UCIElectricityDataset A) (idx : Z) :
  dataset_len ds <= idx \/ idx < - dataset_len ds \/
  len (target ds) <= idx \/ idx < - len (target ds) ->
  getitem ds idx = Raise IndexError.
Proof.
  intros H; unfold getitem, dataset_len in *.
  destruct (index (features ds) idx) as [f|e] eqn:Ef.
  - simpl bind. rewrite index_out_of_range; [reflexivity|].
    destruct H as [H|[H|H]]; [| |exact H];
      rewrite index_out_of_range in Ef by auto; discriminate Ef.
  - simpl bind. unfold index in Ef; cbv zeta in Ef.
    destruct (_ <? 0); [congruence|].
    destruct (nth_error _ _); congruence.
Qed.

(** X6: on a dataset with as many targets as histories, a negative index
    counts from the end: index [i - len] returns what index [i] returns. *)
Theorem getitem_from_end (ds : UCIElectricityDataset A) (i : Z) :
  len (target ds) = dataset_len ds ->
  0 <= i < dataset_len ds ->
  getitem ds (i - dataset_len ds) = getitem ds i.
Proof.
  intros Hlen Hi; unfold getitem, dataset_len in *.
  rewrite index_from_end by assumption.
  destruct (index (features ds) i) as [f|e]; [simpl bind | reflexivity].
  rewrite <- Hlen, index_from_end by lia.
  reflexivity.
Qed.

End GetitemMore.

Lemma getitem_out_of_range_witness :
  getitem (plain [[1; 2]; [2; 3]] [[2; 3]; [3; 4]]) 2 = Raise IndexError.
Proof.
  refine (getitem_out_of_range (plain [[1; 2]; [2; 3]] [[2; 3]; [3; 4]]) 2 _).
  left; vm_compute; congruence.
Defined.

Lemma getitem_from_end_witness :
  getitem (plain [[1; 2]; [2; 3]] [[2; 3]; [3; 4]])
          (1 - dataset_len (plain [[1; 2]; [2; 3]] [[2; 3]; [3; 4]]))
  = getitem (plain [[1; 2]; [2; 3]] [[2; 3]; [3; 4]]) 1.
Proof.
  refine (getitem_from_end (plain [[1; 2]; [2; 3]] [[2; 3]; [3; 4]]) 1 _ _).
  - reflexivity.
  - vm_compute; split; congruence.
Defined.

(** ** From a series to its batches *)

Lemma batch_sizes_bounds (B M : Z) :
  0 < B -> 0 <= M -> Forall (fun n => 1 <= n <= B) (batch_sizes B M).
Proof.
  intros HB HM; unfold batch_sizes; apply Forall_app; split.
  - apply Forall_forall; intros n Hn.
    apply repeat_spec in Hn; lia.
  - pose proof (Z.mod_pos_bound M B HB).
    destruct (Z.eqb_spec (M mod B) 0); constructor; [lia | constructor].
Qed.

Lemma batch_sizes_head (B M : Z) :
  0 < B -> 0 < M -> exists rest, batch_sizes B M = Z.min B M :: rest.
Proof.
  intros HB HM; unfold batch_sizes.
  destruct (Z_lt_le_dec M B) as [Hlt|Hge].
  - rewrite Z.div_small, Z.mod_small by lia; simpl repeat.
    destruct (Z.eqb_spec M 0); [lia|].
    exists []; simpl; f_equal; lia.
  - assert (0 < M / B) by (apply Z.div_str_pos; lia).
    destruct (Z.to_nat (M / B)) as [|q] eqn:Eq; [lia|].
    simpl repeat; eexists; simpl; f_equal; lia.
Qed.

Section PassFacts.

Context {A : Type}.

(** One pass over a dataset without transforms: every batch is fetched,
    the batches cut the samples in order, with the sampler's sizes. *)
Lemma loader_pass (X y : list (list A)) (B : Z) :
  0 < B -> length y = length X ->
  exists rs,
    iter_loader (mkLoader (plain X y) B) = map Ok (map stack_of rs) /\
    concat rs = map sample_of (combine X y) /\
    map len rs = batch_sizes B (len X).
Proof.
  intros HB Hlen.
  pose proof (len_nonneg X) as HM.
  assert (Hall := getitem_all X y Hlen).
  pose proof (batch_sampler_concat B (range (len X)) []) as Hc.
  simpl app in Hc; rewrite <- Hc in Hall; clear Hc.
  destruct (mapM_concat _ _ _ Hall) as (rs & Hrs & Hcat & Hsz).
  exists rs; split; [|split]; [|exact Hcat|].
  - unfold iter_loader; simpl dataset; simpl batch_size.
    unfold dataset_len; simpl features.
    rewrite map_map.
    rewrite <- (map_map (mapM (getitem (plain X y)))
                  (fun r => s <- r ;; Ok (stack_of s))).
    rewrite (mapM_map_Ok _ _ _ Hrs), map_map; reflexivity.
  - transitivity (map Z.of_nat (map (@length _) rs));
      [now rewrite map_map|].
    rewrite Hsz.
    pose proof (batch_sampler_sizes B (range (len X)) [] HB) as Hs.
    change (len (@nil Z)) with 0 in Hs.
    rewrite Z.add_0_l, range_len in Hs by assumption.
    rewrite <- Hs by assumption.
    now rewrite map_map.
Qed.

End PassFacts.

Lemma unsqueezed_shape (r : list (list Q)) (L : Z) :
  Forall (fun w => len w = L) r ->
  has_shape (map unsqueeze1 r) (len r) L 1.
Proof.
  intros H; split; [apply len_map|].
  apply Forall_map; eapply Forall_impl; [|exact H].
  intros w Hw; split; [now rewrite unsqueeze1_len | apply unsqueeze1_rows].
Qed.

Lemma windows_length (S : list Q) (L : Z) :
  0 <= L ->
  Forall (fun w => len w = L) (map (history_at S L) (range (len S - L))) /\
  Forall (fun w => len w = L) (map (target_at S L) (range (len S - L))).
Proof.
  intros HL; split; apply Forall_map_range; intros i Hi.
  - unfold history_at; rewrite slice_len; lia.
  - unfold target_at; rewrite slice_len; lia.
Qed.

(** The batches of the script's pipeline, with their shapes. *)
Lemma pipeline_pass (S : list Q) (L B : Z) :
  0 <= L -> 0 < B ->
  exists X y rs,
    create_dataset S L = Ok (X, y) /\
    iter_loader (mkLoader (plain X y) B) = map Ok (map stack_of rs) /\
    map len rs = batch_sizes B (Z.max 0 (len S - L)) /\
    Forall (fun r => has_shape (fst (stack_of r)) (len r) L 1 /\
                     has_shape (snd (stack_of r)) (len r) L 1) rs.
Proof.
  intros HL HB.
  destruct (windows_length S L HL) as [HX Hy].
  set (X := map (history_at S L) (range (len S - L))) in *.
  set (y := map (target_at S L) (range (len S - L))) in *.
  assert (Hlen : length y = length X)
    by (unfold X, y; now rewrite !length_map).
  destruct (loader_pass X y B HB Hlen) as (rs & Hpass & Hcat & Hsz).
  exists X, y, rs; split; [apply create_dataset_maps|].
  split; [exact Hpass|]; split.
  - rewrite Hsz; unfold X; now rewrite len_map, range_length.
  - apply Forall_forall; intros r Hr.
    assert (Hin : forall s, In s r ->
              exists h t, s = sample_of (h, t) /\ In h X /\ In t y).
    { intros s Hs.
      assert (Hs' : In s (concat rs)) by (apply in_concat; eauto).
      rewrite Hcat in Hs'; apply in_map_iff in Hs' as ([h t] & <- & Hp).
      exists h, t; split; [reflexivity|].
      split; [eapply in_combine_l | eapply in_combine_r]; eauto. }
    rewrite Forall_forall in HX, Hy.
    unfold stack_of; simpl; split; split;
      try (unfold len; now rewrite length_map).
    + apply Forall_forall; intros f Hf.
      apply in_map_iff in Hf as (s & <- & Hs).
      destruct (Hin s Hs) as (h & t & -> & Hh & _); simpl.
      split; [rewrite unsqueeze1_len; auto | apply unsqueeze1_rows].
    + apply Forall_forall; intros f Hf.
      apply in_map_iff in Hf as (s & <- & Hs).
      destruct (Hin s Hs) as (h & t & -> & _ & Ht); simpl.
      split; [rewrite unsqueeze1_len; auto | apply unsqueeze1_rows].
Qed.

(** X7: from any series, with [L >= 0] and [B > 0], the script's pipeline
    (windows, dataset, loader) gives [ceil(max(0, N - L) / B)] batches on
    every pass; each one is fetched without error and holds between 1
    and [B] samples, histories and targets both of shape [[n, L, 1]]. *)
Theorem pipeline_batch_shapes (S : list Q) (L B : Z) :
  0 <= L -> 0 < B ->
  exists dl batches,
    loader_of S L B = Ok dl /\
    iter_loader dl = map Ok batches /\
    len batches = (Z.max 0 (len S - L) + B - 1) / B /\
    Forall (fun b => exists n, 1 <= n <= B /\
                               has_shape (fst b) n L 1 /\
                               has_shape (snd b) n L 1) batches.
Proof.
  intros HL HB.
  destruct (pipeline_pass S L B HL HB) as (X & y & rs & Hds & Hpass & Hsz & Hsh).
  exists (mkLoader (plain X y) B), (map stack_of rs).
  split.
  { unfold loader_of; rewrite Hds; simpl bind.
    unfold new_DataLoader.
    destruct (Z.leb_spec B 0); [lia | reflexivity]. }
  split; [exact Hpass|]; split.
  - rewrite len_map, <- (len_map len), Hsz.
    apply batch_sizes_len; lia.
  - apply Forall_map, Forall_forall; intros r Hr.
    rewrite Forall_forall in Hsh; exists (len r); split; [|now apply Hsh].
    pose proof (batch_sizes_bounds B (Z.max 0 (len S - L)) HB ltac:(lia)) as Hb.
    rewrite <- Hsz, Forall_forall in Hb.
    apply Hb, in_map, Hr.
Qed.

(** X8: the first batch the script reads to print its shape (lines
    136-142).  When the window fits ([0 <= L < N]) it has
    [min(B, N - L)] samples and shape [[min(B, N - L), L, 1]]; when the
    series has no window ([N <= L]) the loader is exhausted at once and
    [next] raises [StopIteration]. *)
Theorem first_batch_shape (S : list Q) (L B : Z) :
  0 <= L -> 0 < B ->
  exists dl,
    loader_of S L B = Ok dl /\
    (len S <= L -> next_iter dl = StopIteration) /\
    (L < len S ->
     exists f t,
       next_iter dl = Yield (f, t) /\
       has_shape f (Z.min B (len S - L)) L 1 /\
       has_shape t (Z.min B (len S - L)) L 1).
Proof.
  intros HL HB.
  destruct (pipeline_pass S L B HL HB) as (X & y & rs & Hds & Hpass & Hsz & Hsh).
  exists (mkLoader (plain X y) B).
  split.
  { unfold loader_of; rewrite Hds; simpl bind.
    unfold new_DataLoader.
    destruct (Z.leb_spec B 0); [lia | reflexivity]. }
  unfold next_iter; rewrite Hpass; split.
  - intros Hshort.
    replace (Z.max 0 (len S - L)) with 0 in Hsz by lia.
    destruct rs; [reflexivity | discriminate Hsz].
  - intros Hfits.
    destruct (batch_sizes_head B (Z.max 0 (len S - L)) HB ltac:(lia))
      as [rest Hhead].
    rewrite Hhead in Hsz.
    destruct rs as [|r rs]; [discriminate Hsz|].
    simpl in Hsz; injection Hsz as Hr _.
    apply Forall_inv in Hsh as [Hf Ht].
    replace (Z.max 0 (len S - L)) with (len S - L) in Hr by lia.
    rewrite Hr in Hf, Ht.
    exists (fst (stack_of r)), (snd (stack_of r)); auto.
Qed.

Lemma pipeline_batch_shapes_witness :
  exists dl batches,
    loader_of [1#1; 2#1; 3#1; 4#1; 5#1] 2 2 = Ok dl /\
    iter_loader dl = map Ok batches /\
    len batches = (Z.max 0 (len [1#1; 2#1; 3#1; 4#1; 5#1] - 2) + 2 - 1) / 2 /\
    Forall (fun b => exists n, 1 <= n <= 2 /\
                               has_shape (fst b) n 2 1 /\
                               has_shape (snd b) n 2 1) batches.
Proof.
  refine (pipeline_batch_shapes [1#1; 2#1; 3#1; 4#1; 5#1] 2 2 _ _);
    vm_compute; congruence.
Defined.

Lemma first_batch_shape_witness :
  exists dl,
    loader_of [1#1; 2#1; 3#1; 4#1; 5#1] 2 2 = Ok dl /\
    (len [1#1; 2#1; 3#1; 4#1; 5#1] <= 2 -> next_iter dl = StopIteration) /\
    (2 < len [1#1; 2#1; 3#1; 4#1; 5#1] ->
     exists f t,
       next_iter dl = Yield (f, t) /\
       has_shape f (Z.min 2 (len [1#1; 2#1; 3#1; 4#1; 5#1] - 2)) 2 1 /\
       has_shape t (Z.min 2 (len [1#1; 2#1; 3#1; 4#1; 5#1] - 2)) 2 1).
Proof.
  refine (first_batch_shape [1#1; 2#1; 3#1; 4#1; 5#1] 2 2 _ _);
    vm_compute; congruence.
Defined.

(** ** More on the validation pass *)


Lemma Qsum_abs_nonneg (ys ps : list Q) :
  (0 <= Qsum (zip_with abs_diff ys ps))%Q.
Proof.
  revert ps; induction ys as [|y ys IH]; intros [|p ps]; simpl;
    try apply Qle_refl.
  replace 0%Q with (0 + 0)%Q by reflexivity.
  apply Qplus_le_compat; [apply Qabs_nonneg | apply IH].
Qed.

Lemma Qsum_abs_self (ys : list Q) : (Qsum (zip_with abs_diff ys ys) == 0)%Q.
Proof.
  induction ys as [|y ys IH]; simpl; [reflexivity|].
  rewrite IH; unfold abs_diff.
  setoid_replace (y - y)%Q with 0%Q by ring.
  reflexivity.
Qed.

Section ValidationMore.

Context {model_state : Type}.
Variable forward : model_state -> tensor3 -> tensor3.


(** X10: an MAE reported by a validation pass is never negative, and it
    is 0 when every prediction equals its target. *)
Theorem validation_mae_nonneg (m : model_state) (batches : list batch_t)
    (mae : Q) (lp : list item) :
  Forall (fun b => same_shape (snd b) (forward m (fst b))) batches ->
  validation forward m (map Ok batches) = Ok (mae, lp) ->
  (0 <= mae)%Q /\
  (pass_preds forward m batches = pass_targets batches -> (mae == 0)%Q).
Proof.
  intros Hshape Hval; unfold validation in Hval.
  destruct (foldM _ _ _) as [acc|] eqn:Hfold; simpl bind in Hval;
    [|discriminate].
  destruct (validation_totals forward m batches Hshape _ _ Hfold) as [Hs Hl].
  simpl in Hs, Hl.
  unfold mae_of in Hval.
  destruct (Z.eqb_spec (sum_len acc) 0) as [|Hz]; simpl bind in Hval;
    [discriminate|].
  inversion Hval; subst mae lp; clear Hval.
  pose proof (len_nonneg (pass_errors forward m batches)) as Hn.
  assert (Hpos : (0 < inject_Z (sum_len acc))%Q).
  { change 0%Q with (inject_Z 0); rewrite <- Zlt_Qlt; lia. }
  split.
  - apply Qle_shift_div_l; [exact Hpos|].
    rewrite Qmult_0_l, Hs, Qplus_0_l.
    apply Qsum_abs_nonneg.
  - intros Heq.
    rewrite Hs, Qplus_0_l; unfold pass_errors; rewrite Heq, Qsum_abs_self.
    unfold Qdiv; apply Qmult_0_l.
Qed.

End ValidationMore.


Lemma validation_mae_nonneg_witness :
  (0 <= 10 # 5)%Q /\
  (pass_preds echo_forward tt uneven_batches = pass_targets uneven_batches ->
   (10 # 5 == 0)%Q).
Proof.
  refine (validation_mae_nonneg echo_forward tt uneven_batches (10 # 5)%Q
            (repeat (Num (0#1)) 5) _ eq_refl).
  repeat constructor.
Defined.

(** ** More on the run *)

Lemma range_snoc (n : nat) :
  range (Z.of_nat (S n)) = range (Z.of_nat n) ++ [Z.of_nat n].
Proof.
  unfold range; rewrite !Nat2Z.id, seq_S, map_app; reflexivity.
Qed.


Lemma due_step (K n : Z) :
  1 <= K -> 0 <= n ->
  (n + 1) / K = n / K + (if due K n then 1 else 0).
Proof.
  intros HK Hn; unfold due.
  pose proof (Z.div_mod n K ltac:(lia)) as Hdm.
  pose proof (Z.mod_pos_bound n K ltac:(lia)) as Hm.
  destruct (Z.eqb_spec (n mod K) (K - 1)) as [E|E].
  - symmetry; apply (Z.div_unique _ _ _ 0); lia.
  - symmetry; apply (Z.div_unique _ _ _ (n mod K + 1)); lia.
Qed.

(** Epochs [0 .. N-1] hold [N / K] epochs that are due for validation. *)
Lemma due_count (K N : Z) :
  1 <= K -> 0 <= N -> len (filter (due K) (range N)) = N / K.
Proof.
  intros HK HN.
  rewrite <- (Z2Nat.id N HN); generalize (Z.to_nat N) as n; clear N HN.
  induction n as [|n IH].
  - rewrite Z.div_0_l by lia; reflexivity.
  - rewrite range_snoc, filter_app, len_app, IH.
    replace (Z.of_nat (S n)) with (Z.of_nat n + 1) by lia.
    rewrite due_step by lia; simpl filter.
    destruct (due K (Z.of_nat n)); reflexivity.
Qed.



Section RunMore.

Context {model_state : Type}.
Variable forward : model_state -> tensor3 -> tensor3.
Variable train_step : model_state -> tensor3 -> tensor3 -> model_state.
Variables (K : Z) (train_dataloader test_dataloader : DataLoader Q).
Variable batches : list batch_t.

Hypothesis period : K <> 0.
Hypothesis train_fetched : iter_loader train_dataloader = map Ok batches.

Let body := epoch_body forward train_step K train_dataloader test_dataloader.
Let pass := train_pass_of train_step batches.

(** An epoch that is not due trains and goes on. *)
Lemma epoch_quiet (st : run_state model_state) (e : Z) :
  due K e = false ->
  body st e
  = (mkRun (pass (model st)) (trace st ++ [(e, Training)]) (reports st)
           (plotted st), None).
Proof.
  intros Hdue; unfold body, epoch_body; cbv zeta; simpl model.
  rewrite train_fetched, train_pass.
  unfold modulo; destruct (Z.eqb_spec K 0); [contradiction|].
  unfold due in Hdue; rewrite Hdue; reflexivity.
Qed.

(** An epoch that is due trains, then validates with the trained model. *)
Lemma epoch_checked (st : run_state model_state) (e : Z) :
  due K e = true ->
  body st e
  = match validation forward (pass (model st)) (iter_loader test_dataloader) with
    | Raise x =>
        (mkRun (pass (model st))
               (trace st ++ [(e, Training); (e, Evaluating)])
               (reports st) (plotted st), Some x)
    | Ok (mae_val, lp) =>
        (mkRun (pass (model st))
               (trace st ++ [(e, Training); (e, Evaluating)])
               (reports st ++ [(e, mae_val)]) (Some lp), None)
    end.
Proof.
  intros Hdue; unfold body, epoch_body; cbv zeta; simpl model.
  rewrite train_fetched, train_pass.
  unfold modulo; destruct (Z.eqb_spec K 0); [contradiction|].
  unfold due in Hdue; rewrite Hdue.
  unfold enter; simpl; rewrite <- app_assoc; simpl.
  destruct (validation _ _ _) as [[mae lp]|x]; reflexivity.
Qed.



(** When every validation pass ends: the state a run of epochs leaves. *)
Lemma epochs_state (es : list Z) (st : run_state model_state) :
  (forall m, exists r,
      validation forward m (iter_loader test_dataloader) = Ok r) ->
  exists st',
    for_epochs body st es = (st', None) /\
    model st' = Nat.iter (length es) pass (model st) /\
    len (reports st') = len (reports st) + len (filter (due K) es) /\
    (plotted st' = None <-> plotted st = None /\ filter (due K) es = []).
Proof.
  intros Hval; revert st; induction es as [|e es IH]; intros st.
  - exists st; simpl; repeat split; try tauto.
    change (len (@nil Z)) with 0; lia.
  - cbn [for_epochs filter length].
    destruct (due K e) eqn:Hdue.
    + rewrite epoch_checked by assumption.
      destruct (Hval (pass (model st))) as [[mae lp] ->].
      match goal with
      | |- context [for_epochs body ?s es] =>
          destruct (IH s) as (st' & -> & Hm & Hr & Hp)
      end.
      simpl in Hm, Hr, Hp.
      exists st'; split; [reflexivity|].
      rewrite Hm, Hr, len_app, <- Nat.iter_succ_r.
      split; [reflexivity|]; split.
      * unfold len; simpl length; lia.
      * split; [intros H; apply Hp in H as [H _]; discriminate H|].
        intros [_ H]; discriminate H.
    + rewrite epoch_quiet by assumption.
      match goal with
      | |- context [for_epochs body ?s es] =>
          destruct (IH s) as (st' & -> & Hm & Hr & Hp)
      end.
      simpl in Hm, Hr, Hp.
      exists st'; split; [reflexivity|].
      rewrite Hm, Hr, <- Nat.iter_succ_r; auto.
Qed.

End RunMore.

Section RunTheorems.

Context {model_state : Type}.
Variable forward : model_state -> tensor3 -> tensor3.
Variable train_step : model_state -> tensor3 -> tensor3 -> model_state.

(** X11: validation never changes the model.  In a run that ends, the
    final model is the initial one after [N_EPOCHS] training passes over
    the training batches, whatever the evaluation period, the validation
    data and the validation results are. *)
Theorem run_final_model (N_EPOCHS K : Z)
    (train_dataloader test_dataloader : DataLoader Q)
    (batches : list batch_t) (m0 : model_state) :
  K <> 0 ->
  iter_loader train_dataloader = map Ok batches ->
  (forall m, exists r,
      validation forward m (iter_loader test_dataloader) = Ok r) ->
  exists st,
    run forward train_step N_EPOCHS K train_dataloader test_dataloader m0
    = (st, None) /\
    model st
    = Nat.iter (Z.to_nat N_EPOCHS) (train_pass_of train_step batches) m0.
Proof.
  intros HK Htrain Hval.
  destruct (epochs_state forward train_step K train_dataloader
              test_dataloader batches HK Htrain (range N_EPOCHS)
              (mkRun m0 [] [] None) Hval) as (st & Hrun & Hm & _).
  exists st; split; [exact Hrun|].
  rewrite Hm; simpl model.
  unfold range; now rewrite length_map, length_seq.
Qed.

(** X12: a run of [N_EPOCHS >= 0] epochs with period [K >= 1] that ends
    reports exactly [N_EPOCHS / K] validation MAEs (integer division), and
    it leaves no [last_preds] list for the final plot exactly when
    [N_EPOCHS < K]. *)
Theorem run_report_count (N_EPOCHS K : Z)
    (train_dataloader test_dataloader : DataLoader Q)
    (batches : list batch_t) (m0 : model_state) :
  1 <= K -> 0 <= N_EPOCHS ->
  iter_loader train_dataloader = map Ok batches ->
  (forall m, exists r,
      validation forward m (iter_loader test_dataloader) = Ok r) ->
  exists st,
    run forward train_step N_EPOCHS K train_dataloader test_dataloader m0
    = (st, None) /\
    len (reports st) = N_EPOCHS / K /\
    (plotted st = None <-> N_EPOCHS < K).
Proof.
  intros HK HN Htrain Hval.
  destruct (epochs_state forward train_step K train_dataloader
              test_dataloader batches ltac:(lia) Htrain (range N_EPOCHS)
              (mkRun m0 [] [] None) Hval) as (st & Hrun & _ & Hr & Hp).
  exists st; split; [exact Hrun|].
  simpl in Hr, Hp.
  pose proof (due_count K N_EPOCHS HK HN) as Hc.
  split; [rewrite Hr, Hc; reflexivity|].
  rewrite Hp; split.
  - intros [_ H]; rewrite H in Hc; change (len (@nil Z)) with 0 in Hc.
    symmetry in Hc; apply Z.div_small_iff in Hc; lia.
  - intros H; split; [reflexivity|].
    apply len_zero_nil; rewrite Hc; apply Z.div_small; lia.
Qed.



End RunTheorems.

Lemma run_final_model_witness :
  exists st,
    run echo_forward echo_step 4 2 (demo_loader 2) (demo_loader 3) tt
    = (st, None) /\
    model st = Nat.iter (Z.to_nat 4) (train_pass_of echo_step demo_batches) tt.
Proof.
  refine (run_final_model echo_forward echo_step 4 2
            (demo_loader 2) (demo_loader 3) demo_batches tt _ eq_refl _).
  - intros H; discriminate H.
  - intros []; eexists; reflexivity.
Defined.

Lemma run_report_count_witness :
  exists st,
    run echo_forward echo_step 4 2 (demo_loader 2) (demo_loader 3) tt
    = (st, None) /\
    len (reports st) = 4 / 2 /\
    (plotted st = None <-> 4 < 2).
Proof.
  refine (run_report_count echo_forward echo_step 4 2
            (demo_loader 2) (demo_loader 3) demo_batches tt _ _ eq_refl _).
  - vm_compute; congruence.
  - vm_compute; congruence.
  - intros []; eexists; reflexivity.
Defined.


(** ** The client's column name *)

Module ClientNameFacts.

Import Ascii String DecimalString ClientName.

Lemma length_append (a b : string) :
  length (a ++ b) = (length a + length b)%nat.
Proof. induction a as [|c a IH]; simpl; [reflexivity | now rewrite IH]. Qed.

Lemma length_zeros (n : nat) : length (copies n "0") = n.
Proof. induction n as [|n IH]; simpl; [reflexivity | now rewrite IH]. Qed.

Lemma str_digits (n : Z) :
  0 <= n ->
  str n = NilEmpty.string_of_uint (digits n) /\
  digits n <> Decimal.Nil /\ Z.of_uint (digits n) = n.
Proof.
  intros H; destruct n as [|p|p]; try lia.
  - repeat split; discriminate.
  - pose proof (DecimalPos.Unsigned.to_uint_nonnil p) as Hp.
    pose proof (DecimalZ.of_to (Z.pos p)) as Hof; simpl in Hof.
    unfold str; simpl.
    destruct (Pos.to_uint p) eqn:E; try congruence;
      repeat split; auto; discriminate.
Qed.

Lemma parse_zeros (k : nat) (d : Decimal.uint) :
  NilEmpty.uint_of_string (copies k "0" ++ NilEmpty.string_of_uint d)
  = Some (Nat.iter k Decimal.D0 d).
Proof.
  induction k as [|k IH].
  - simpl; apply NilEmpty.usu.
  - cbn [copies append NilEmpty.uint_of_string]; rewrite IH; reflexivity.
Qed.

Lemma of_uint_zeros (k : nat) (d : Decimal.uint) :
  Z.of_uint (Nat.iter k Decimal.D0 d) = Z.of_uint d.
Proof. induction k; simpl; auto. Qed.

(** Leading zeros do not change what a number reads as. *)
Lemma parse_padded (k : nat) (n : Z) :
  0 <= n -> parse_int (copies k "0" ++ str n) = Some n.
Proof.
  intros Hn; destruct (str_digits n Hn) as (Hs & Hd & Hv).
  destruct k as [|k].
  - simpl; unfold parse_int, str; rewrite NilZero.isi.
    + simpl; now rewrite DecimalZ.of_to.
    + destruct n; simpl; try discriminate.
      intros H; injection H; apply DecimalPos.Unsigned.to_uint_nonnil.
    + destruct n; simpl; discriminate.
  - rewrite Hs; unfold parse_int.
    pose proof (parse_zeros (S k) (digits n)) as Hp.
    cbn [copies append] in *.
    unfold NilZero.int_of_string.
    change (Ascii.eqb "0"%char "-"%char) with false; cbv iota.
    unfold NilZero.uint_of_string; rewrite Hp; simpl option_map.
    f_equal; change (Z.of_uint (Nat.iter (S k) Decimal.D0 (digits n)) = n).
    now rewrite of_uint_zeros.
Qed.

Lemma short_ids :
  forallb (fun c => Nat.leb (length (str c)) 3) (map Z.of_nat (seq 0 1000))
  = true.
Proof. vm_compute; reflexivity. Qed.

(** X14: for a client number that is not negative the suffix is the
    number in decimal, padded with zeros on the left to three characters
    and never cut: it reads back as the number, its length is
    [max(3, len(str(CLIENT)))], and up to 999 it has exactly three
    characters, the column name six. *)
Theorem client_suffix_zero_padded (CLIENT : Z) :
  0 <= CLIENT ->
  parse_int (client_suffix CLIENT) = Some CLIENT /\
  Z.of_nat (length (client_suffix CLIENT))
  = Z.max 3 (Z.of_nat (length (str CLIENT))) /\
  (CLIENT <= 999 ->
   length (client_suffix CLIENT) = 3%nat /\
   length (client_column CLIENT) = 6%nat).
Proof.
  intros H0.
  assert (Hlen : Z.of_nat (length (client_suffix CLIENT))
                 = Z.max 3 (Z.of_nat (length (str CLIENT)))).
  { unfold client_suffix, str_times; rewrite length_append, length_zeros; lia. }
  split; [apply parse_padded; assumption|].
  split; [exact Hlen|].
  intros Hmax.
  assert (length (str CLIENT) <= 3)%nat.
  { pose proof short_ids as Hs; rewrite forallb_forall in Hs.
    apply Nat.leb_le, Hs, in_map_iff.
    exists (Z.to_nat CLIENT); split; [lia|]; apply in_seq; lia. }
  assert (length (client_suffix CLIENT) = 3%nat) by lia.
  split; [assumption|].
  unfold client_column; rewrite length_append; simpl length at 1; lia.
Qed.

(** X15: two client numbers that are not negative and differ never name
    the same column. *)
Theorem client_columns_distinct (a b : Z) :
  0 <= a -> 0 <= b -> client_column a = client_column b -> a = b.
Proof.
  intros Ha Hb H; unfold client_column in H; simpl in H.
  injection H as H.
  pose proof (parse_padded (Z.to_nat (3 - Z.of_nat (length (str a)))) a Ha) as Pa.
  pose proof (parse_padded (Z.to_nat (3 - Z.of_nat (length (str b)))) b Hb) as Pb.
  fold (str_times (3 - Z.of_nat (length (str a))) "0") in Pa.
  fold (str_times (3 - Z.of_nat (length (str b))) "0") in Pb.
  fold (client_suffix a) in Pa; fold (client_suffix b) in Pb.
  rewrite H in Pa; congruence.
Qed.

Lemma client_suffix_zero_padded_witness :
  parse_int (client_suffix 1) = Some 1 /\
  Z.of_nat (length (client_suffix 1)) = Z.max 3 (Z.of_nat (length (str 1))) /\
  (1 <= 999 ->
   length (client_suffix 1) = 3%nat /\ length (client_column 1) = 6%nat).
Proof.
  refine (client_suffix_zero_padded 1 _); vm_compute; congruence.
Defined.

Lemma client_columns_distinct_witness : 1 = 1.
Proof.
  refine (client_columns_distinct 1 1 _ _ eq_refl); vm_compute; congruence.
Defined.

End ClientNameFacts.
